(** * Swarm protocol: specifiers and Lamport clocks

    A shallow embedding of [swarm-protocol/src/Spec.js] (class [Spec]) and of
    the pure logical-time clock [LamportClock], followed by the properties
    their specification states about them.

    JavaScript values are a small inductive type, exceptions are an explicit
    [Throw] result, and the identity of [Stamp] objects (which [!==] observes)
    is an address handed out by an allocation counter that every constructor
    threads through.  Numbers are modelled as integers: the counters of the
    clock are non-negative integers far below 2^53, where JavaScript
    arithmetic on them is exact. *)

From Stdlib Require Import ZArith List String Ascii Bool Sorted FinFun Lia.
Import ListNotations.
Local Open Scope string_scope.

(** ** JavaScript values, exceptions and allocation *)

(** An instance of class [Stamp]: its identity and its text. *)
Record stamp := mkStamp { addr : nat; text : string }.

(** The indices [0..3] of a four-element array, and such an array. *)
Inductive index := I0 | I1 | I2 | I3.

Record array4 (A : Type) := Array4 { at0 : A; at1 : A; at2 : A; at3 : A }.
Arguments Array4 {A} _ _ _ _.
Arguments at0 {A} _.
Arguments at1 {A} _.
Arguments at2 {A} _.
Arguments at3 {A} _.

(** [a[i]] *)
Definition get {A} (a : array4 A) (i : index) : A :=
  match i with
  | I0 => at0 a | I1 => at1 a | I2 => at2 a | I3 => at3 a
  end.

(** [a[i] = x] *)
Definition set {A} (a : array4 A) (i : index) (x : A) : array4 A :=
  match i with
  | I0 => Array4 x (at1 a) (at2 a) (at3 a)
  | I1 => Array4 (at0 a) x (at2 a) (at3 a)
  | I2 => Array4 (at0 a) (at1 a) x (at3 a)
  | I3 => Array4 (at0 a) (at1 a) (at2 a) x
  end.

Definition nat_of_index (i : index) : nat :=
  match i with I0 => 0 | I1 => 1 | I2 => 2 | I3 => 3 end.

(** The range of [for (i=0; i<4; i++)]. *)
Definition indices : list index := [I0; I1; I2; I3].

(** An instance of class [Spec]: its field [_toks]. *)
Record spec := mkSpec { _toks : array4 stamp }.

#[warnings="-register-all"]
Inductive value :=
| JUndefined
| JNull
| JBool (b : bool)
| JNum (n : Z)
| JStr (s : string)
| JArr (l : list value)
| JStamp (t : stamp)
| JSpec (sp : spec).

(** [!v] is [negb (truthy v)]. *)
Definition truthy (v : value) : bool :=
  match v with
  | JUndefined | JNull => false
  | JBool b => b
  | JNum n => negb (n =? 0)%Z
  | JStr s => negb (s =? "")
  | JArr _ | JStamp _ | JSpec _ => true
  end.

(** [v !== null] *)
Definition not_null (v : value) : bool :=
  match v with JNull => false | _ => true end.

(** [throw new Error(msg)] *)
Inductive result (A : Type) :=
| Ok (a : A)
| Throw (msg : string).
Arguments Ok {A} a.
Arguments Throw {A} msg.

(** The number of [Stamp] objects created since the modules were loaded.
    The object created next gets the address [S h], so address [0] is left
    to the one object that exists from the start, [Stamp.ZERO]. *)
Definition heap := nat.

Definition M (A : Type) : Type := heap -> result A * heap.

Definition ret {A} (a : A) : M A := fun h => (Ok a, h).
Definition throw {A} (msg : string) : M A := fun h => (Throw msg, h).
Definition bind {A B} (m : M A) (k : A -> M B) : M B :=
  fun h => match m h with
           | (Ok a, h') => k a h'
           | (Throw e, h') => (Throw e, h')
           end.

Notation "x <- m ;; k" := (bind m (fun x => k))
  (at level 61, m at next level, right associativity).

(** A loop over indices that updates [acc] and may throw. *)
Fixpoint for_each {S} (l : list index) (body : S -> index -> M S) (acc : S)
  : M S :=
  match l with
  | [] => ret acc
  | i :: l' => acc' <- body acc i ;; for_each l' body acc'
  end.

(** [s.indexOf(c)] for a one-character [c]: the first position of [c] in
    [s], or [-1]. *)
Fixpoint indexOf (s : string) (c : ascii) : Z :=
  match s with
  | EmptyString => -1
  | String d s' =>
      if (d =? c)%char then 0
      else let k := indexOf s' c in if (k =? -1)%Z then -1 else k + 1
  end%Z.

(** Reading the property [origin] off a value: class [Stamp] defines it, a
    string (and every other value here) has no such property and reads as
    [undefined], and reading a property of [undefined] or [null] throws. *)
Definition get_origin (origin_of : stamp -> string) (v : value)
  : result value :=
  match v with
  | JStamp t => Ok (JStr (origin_of t))
  | JUndefined | JNull => Throw "TypeError"
  | _ => Ok JUndefined
  end.

Definition is_empty (s : string) : bool :=
  match s with EmptyString => true | _ => false end.

(** ** The token alphabet *)

Module Base64x64.

(** Modelled from the spec: the token alphabet of [Base64x64.js], which is
    not among the sources.  Tokens are written in a restricted
    alphanumeric-like alphabet of 64 characters that holds none of the
    quants and no ['+']: the digits, the letters, ['_'] and ['~']. *)
Definition is_base64 (c : ascii) : bool :=
  let n := nat_of_ascii c in
  (((48 <=? n) && (n <=? 57)) || ((65 <=? n) && (n <=? 90))
   || ((97 <=? n) && (n <=? 122)) || (n =? 95) || (n =? 126))%nat.

(** The longest prefix of [s] made of alphabet characters, and the rest:
    what the greedy [[0-9A-Za-z_~]*] consumes. *)
Fixpoint scan64 (s : string) : string * string :=
  match s with
  | String c s' =>
      if is_base64 c
      then let (v, r) := scan64 s' in (String c v, r)
      else ("", s)
  | EmptyString => ("", "")
  end.

End Base64x64.

(** ** Class [Stamp] *)

Module Stamp.
Import Base64x64.

(** Modelled from the spec: class [Stamp] ([Stamp.js] is not among the
    sources).  A token is an atomic value that may be bare or a
    [value+origin] pair, has a canonical zero sentinel, a string
    projection and structural equality.  The model keeps the text of the
    token; the text of the zero sentinel is ["0"]. *)
Definition ZERO : stamp := mkStamp 0 "0".

(** Modelled from the spec: [Stamp.rsTok], the grammar of one token,
    [B+(\+B+)?] over the alphabet [B].  [scanTok s] is the token the
    regular expression matches at the start of [s] and what follows it. *)
Definition scanTok (s : string) : option (string * string) :=
  let (v, r) := scan64 s in
  if is_empty v then None
  else match r with
       | String c r' =>
           if (c =? "+")%char
           then let (o, r2) := scan64 r' in
                if is_empty o then Some (v, r) else Some (v ++ "+" ++ o, r2)
           else Some (v, r)
       | EmptyString => Some (v, r)
       end.

Definition is_tok (s : string) : bool :=
  match scanTok s with
  | Some (_, EmptyString) => true
  | _ => false
  end.

(** [new Stamp(...)] creates an object, whatever the constructor does next:
    it gets the next address. *)
Definition alloc (s : string) : M stamp :=
  fun h => (Ok (mkStamp (S h) s), S h).

(** Modelled from the spec: [new Stamp(v)] coerces [v] to a token, the zero
    sentinel when [v] is empty or missing; text is validated against the
    token grammar. *)
Definition new (v : value) : M stamp :=
  if negb (truthy v) then alloc "0"
  else match v with
       | JStr s => if is_tok s then alloc s else throw "malformed token"
       | _ => throw "malformed token"
       end.

(** Modelled from the spec: [toString()] and the getter [string], the text
    of the token. *)
Definition toString (t : stamp) : string := text t.
Definition string (t : stamp) : String.string := text t.

(** Modelled from the spec: [a.eq(b)], the structural equality of two
    tokens. *)
Definition eq (a b : stamp) : bool := (text a =? text b)%string.

(** Modelled from the spec: [isZero()] and [isEmpty()], whether the token is
    structurally the zero sentinel. *)
Definition isZero (t : stamp) : bool := (text t =? "0")%string.
Definition isEmpty (t : stamp) : bool := isZero t.

(** The text after the first ['+'] of [s], if there is one. *)
Fixpoint after_plus (s : String.string) : option String.string :=
  match s with
  | EmptyString => None
  | String c s' => if (c =? "+")%char then Some s' else after_plus s'
  end.

(** Modelled from the spec: the origin process embedded in a token, the
    part after ['+'] (the zero text for a bare token). *)
Definition origin (t : stamp) : String.string :=
  match after_plus (text t) with
  | Some o => o
  | None => "0"
  end.

(** [a !== b] on two [Stamp] objects: they are different objects. *)
Definition differs (a b : stamp) : bool := negb (addr a =? addr b)%nat.

(** A non-empty run of alphabet characters: one half of a pair. *)
Definition is_run (s : String.string) : bool :=
  match scan64 s with
  | (v, EmptyString) => negb (is_empty v)
  | _ => false
  end.

(** Modelled from the spec: [new Stamp(value, origin)] with an [origin]
    builds the token from the pair, [value+origin], and does not parse
    [value] as a combined token. *)
Definition new2 (v o : value) : M stamp :=
  match v, o with
  | JStr sv, JStr so =>
      if is_run sv && is_run so then alloc (sv ++ "+" ++ so)
      else throw "malformed token"
  | _, _ => throw "malformed token"
  end.

End Stamp.

(** ** Class [Spec] *)

Module Spec.

(** [Spec.quants = ['/', '#', '!', '.']] *)
Definition quants (i : index) : ascii :=
  match i with
  | I0 => "/" | I1 => "#" | I2 => "!" | I3 => "."
  end%char.

(** One factor [(?:\q(TOK))?] of [Spec.rsSpec] at the start of [s]: the
    capture and what is left.  The group is optional, so where the quant or
    the token after it is missing nothing is consumed and the capture stays
    [undefined]. *)
Definition scanGroup (q : ascii) (s : string) : value * string :=
  match s with
  | String c s' =>
      if (c =? q)%char
      then match Stamp.scanTok s' with
           | Some (t, r) => (JStr t, r)
           | None => (JUndefined, s)
           end
      else (JUndefined, s)
  | EmptyString => (JUndefined, s)
  end.

(** [Spec.reSpec.exec(s)] with [lastIndex = 0]: the four captures
    [m[1..4]] when the whole of [s] matches
    [^(?:\/(TOK))?(?:\#(TOK))?(?:\!(TOK))?(?:\.(TOK))?$], [null] (here
    [None]) otherwise.  No token character is a quant or ['+'], so the one
    way the expression can match is the greedy one followed here. *)
Definition reSpec_exec (s : string) : option (array4 value) :=
  let (m1, r1) := scanGroup (quants I0) s in
  let (m2, r2) := scanGroup (quants I1) r1 in
  let (m3, r3) := scanGroup (quants I2) r2 in
  let (m4, r4) := scanGroup (quants I3) r3 in
  if is_empty r4 then Some (Array4 m1 m2 m3 m4) else None.

Definition zero_toks : array4 stamp :=
  Array4 Stamp.ZERO Stamp.ZERO Stamp.ZERO Stamp.ZERO.

(** [tok && tok.constructor===Stamp ? tok : new Stamp(tok)] *)
Definition coerce (tok : value) : M stamp :=
  match tok with
  | JStamp t => ret t
  | _ => Stamp.new tok
  end.

(** [new Spec(spec)] *)
Definition new (arg : value) : M spec :=
  let toks := zero_toks in
  if negb (truthy arg) then ret (mkSpec toks)
  else match arg with
       | JStr s =>
           match reSpec_exec s with
           | None => throw "invalid spec"
           | Some m =>
               toks' <- for_each indices
                          (fun toks i =>
                             if not_null (get m i)
                             then t <- Stamp.new (get m i) ;;
                                  ret (set toks i t)
                             else ret toks)
                          toks ;;
               ret (mkSpec toks')
           end
       | JSpec sp => ret (mkSpec (_toks sp))
       | JArr l =>
           if (List.length l =? 4)%nat
           then toks' <- for_each indices
                           (fun toks i =>
                              t <- coerce (nth (nat_of_index i) l JUndefined) ;;
                              ret (set toks i t))
                           toks ;;
                ret (mkSpec toks')
           else throw "unrecognized parameter"
       | _ => throw "unrecognized parameter"
       end.

(** [Spec.NON_SPECIFIC_NOOP = new Spec()] *)
Definition NON_SPECIFIC_NOOP : spec := mkSpec zero_toks.

(** The token accessors [Type], [Id], [Stamp] and [Name]. *)
Definition Type_ (this : spec) : stamp := get (_toks this) I0.
Definition Id (this : spec) : stamp := get (_toks this) I1.
Definition Stamp_ (this : spec) : stamp := get (_toks this) I2.
Definition Name (this : spec) : stamp := get (_toks this) I3.

(** The string accessors [type], [id], [stamp] and [name]. *)
Definition type (this : spec) : string := Stamp.string (get (_toks this) I0).
Definition id (this : spec) : string := Stamp.string (get (_toks this) I1).
Definition stamp_ (this : spec) : string := Stamp.string (get (_toks this) I2).
Definition name (this : spec) : string := Stamp.string (get (_toks this) I3).

(** [this.Stamp.origin] *)
Definition origin (this : spec) : result value :=
  get_origin Stamp.origin (JStamp (Stamp_ this)).

(** [this.name.origin] *)
Definition scope (this : spec) : result value :=
  get_origin Stamp.origin (JStr (name this)).

(** One turn of the loop of [toString]. *)
Definition toString_step (this defaults : spec) (ret : string) (i : index)
  : string :=
  if Stamp.differs (get (_toks this) i) (get (_toks defaults) i)
     || (match i with I3 => true | _ => false end && is_empty ret)
  then ret ++ String (quants i) (Stamp.toString (get (_toks this) i))
  else ret.

(** [this.toString(defaults)]; [None] is an [undefined] argument. *)
Definition toString (this : spec) (defaults : option spec) : string :=
  let defaults :=
    match defaults with
    | None => NON_SPECIFIC_NOOP
    | Some d => d
    end in
  let ret := fold_left (toString_step this defaults) indices "" in
  if is_empty ret then ".0" else ret.

(** The array of [Stamp] objects [toks], as the argument of [new Spec]. *)
Definition array_of (toks : array4 stamp) : value :=
  JArr [JStamp (at0 toks); JStamp (at1 toks);
        JStamp (at2 toks); JStamp (at3 toks)].

(** [this.blank(except)]; [None] is an [undefined] argument. *)
Definition blank (this : spec) (except : option string) : M spec :=
  let except :=
    match except with
    | None => ""
    | Some e => if negb (truthy (JStr e)) then "" else e
    end in
  let toks :=
    fold_left
      (fun toks i =>
         if (indexOf except (quants i) =? -1)%Z
         then set toks i Stamp.ZERO
         else toks)
      indices (_toks this) in
  new (array_of toks).

(** [this.typeid]; [Spec.ZERO] is not defined, so [toString] gets
    [undefined]. *)
Definition typeid (this : spec) : M string :=
  tispec <- blank this (Some "/#") ;;
  ret (toString tispec None).

(** [Spec.is(str)] *)
Definition is_ (str : string) : bool :=
  match reSpec_exec str with Some _ => true | None => false end.

(** [this.isSameObject(spec)]; reading [spec.constructor] off [undefined]
    or [null] throws. *)
Definition isSameObject (this : spec) (arg : value) : M bool :=
  sp <- match arg with
        | JUndefined | JNull => throw "TypeError"
        | JSpec sp => ret sp
        | _ => new arg
        end ;;
  ret (Stamp.eq (Type_ this) (Type_ sp) && Stamp.eq (Id this) (Id sp)).

(** [this.isEmpty()] *)
Definition isEmpty (this : spec) : bool :=
  forallb (fun i => Stamp.isEmpty (get (_toks this) i)) indices.

(** Two specifiers are structurally equal when their four tokens are. *)
Definition equal (a b : spec) : bool :=
  forallb (fun i => Stamp.eq (get (_toks a) i) (get (_toks b) i)) indices.

(** [Spec.stampop(stamp, name)], on the texts of its arguments. *)
Definition stampop_of (stamp name : string) : string :=
  ((String (quants I2) "" ++ stamp) ++ String (quants I3) "") ++ name.

(** [this.stampop] *)
Definition stampop (this : spec) : string :=
  stampop_of (Stamp.toString (get (_toks this) I2))
             (Stamp.toString (get (_toks this) I3)).

(** [v[i]] for the argument [v] of [fill]: an element of an array, a
    character of a string, [undefined] on everything else. *)
Definition elem (v : value) (i : index) : value :=
  match v with
  | JArr l => nth (nat_of_index i) l JUndefined
  | JStr s =>
      match String.get (nat_of_index i) s with
      | Some c => JStr (String c "")
      | None => JUndefined
      end
  | _ => JUndefined
  end.

(** [x.constructor===Stamp ? x : new Stamp(x)]; reading [constructor] off
    [undefined] or [null] throws. *)
Definition stamp_or_new (x : value) : M stamp :=
  match x with
  | JUndefined | JNull => throw "TypeError"
  | JStamp t => ret t
  | _ => Stamp.new x
  end.

(** [this.fill(spec)] *)
Definition fill (this : spec) (arg : value) : M spec :=
  match arg with
  | JUndefined | JNull => throw "TypeError"
  | _ =>
      let new_toks :=
        match arg with
        | JSpec sp => array_of (_toks sp)
        | _ => arg
        end in
      toks <- for_each indices
                (fun toks i =>
                   if Stamp.isZero (get toks i)
                   then t <- stamp_or_new (elem new_toks i) ;;
                        ret (set toks i t)
                   else ret toks)
                (_toks this) ;;
      new (array_of toks)
  end.

(** [Spec.quants.indexOf(quant)], [None] for [-1]: the first index whose
    quant is strictly equal to [quant]. *)
Fixpoint quants_indexOf (l : list index) (quant : value) : option index :=
  match l with
  | [] => None
  | i :: l' =>
      match quant with
      | JStr s =>
          if (s =? String (quants i) "")%string then Some i
          else quants_indexOf l' quant
      | _ => quants_indexOf l' quant
      end
  end.

(** [this.has(quant)] *)
Definition has (this : spec) (quant : value) : result bool :=
  match quants_indexOf indices quant with
  | None => Throw "invalid quant"
  | Some i => Ok (negb (Stamp.isZero (get (_toks this) i)))
  end.

(** The stamp [restamp] and [rename] put in:
    [if (origin) stamp = new Stamp(stamp, origin)]. *)
Definition with_origin (stamp origin : value) : M value :=
  if truthy origin
  then t <- Stamp.new2 stamp origin ;; ret (JStamp t)
  else ret stamp.

(** [this.restamp(stamp, origin)] *)
Definition restamp (this : spec) (stamp origin : value) : M spec :=
  st <- with_origin stamp origin ;;
  new (JArr [JStamp (Type_ this); JStamp (Id this); st; JStamp (Name this)]).

(** [this.rename(stamp, origin)] *)
Definition rename (this : spec) (stamp origin : value) : M spec :=
  st <- with_origin stamp origin ;;
  new (JArr [JStamp (Type_ this); JStamp (Id this); JStamp (Stamp_ this); st]).

End Spec.

(** ** [LamportClock] *)

Module LamportClock.

(** What the clock takes from the modules it requires, [./base64] and
    [./LamportTimestamp], neither of which is among the sources: the test
    of the token grammar [base64.reTok.test], the integer codec
    [base64.int2base] and [base64.base2int], and the match of
    [LamportTimestamp.reTokExt], which yields the captures [m[1]] and
    [m[2]] or [null] (here [None]). *)
Class Codec := {
  reTok_test : string -> bool;
  int2base : Z -> Z -> string;
  base2int : string -> Z;
  reTokExt_match : string -> option (string * string)
}.

(** The fields [this.id] and [this.seq]. *)
Record t := mk { id : string; seq : Z }.

(** The object [parseTimestamp] returns. *)
Record parsed := mkParsed { pseq : Z; process : string }.

Section Methods.
Context {codec : Codec}.

(** [new LamportClock(processId, initTime)]: the id is tested, the counter
    starts at [0], [initTime] is not used. *)
Definition new (processId : string) : result t :=
  if negb (reTok_test processId)
  then Throw ("invalid process id: " ++ processId)
  else Ok (mk processId 0).

(** [adjustTime] has an empty body. *)
Definition adjustTime (this : t) : unit * t := (tt, this).

(** [issueTimestamp]: [int2base(this.seq++, 5) + '+' + this.id]. *)

Definition issueTimestamp (this : t) : string * t :=
  let base := int2base (seq this) 5 in
  (base ++ "+" ++ id this, mk (id this) (seq this + 1)).

(** [parseTimestamp]: [{seq: base2int(m[1]), process: m[2]}] where [ts]
    matches, an exception where it does not. *)
Definition parseTimestamp (this : t) (ts : string) : result parsed * t :=
  match reTokExt_match ts with
  | None => (Throw ("malformed timestamp: " ++ ts), this)
  | Some (m1, m2) => (Ok (mkParsed (base2int m1) m2), this)
  end.

(** [checkTimestamp]: after [parseTimestamp],
    [if (parsed.seq >= this.seq) this.seq = parsed.seq + 1], then [true]. *)
Definition checkTimestamp (this : t) (ts : string) : result bool * t :=
  match parseTimestamp this ts with
  | (Throw e, this') => (Throw e, this')
  | (Ok p, this') =>
      (Ok true,
       if (pseq p >=? seq this')%Z
       then mk (id this') (pseq p + 1)
       else this')
  end.

(** [time2date] returns [undefined]. *)
Definition time2date (this : t) : value * t := (JUndefined, this).

(** [n] consecutive calls of [issueTimestamp]: the strings returned, in
    order, and the clock afterwards. *)
Fixpoint issue_many (n : nat) (this : t) : list string * t :=
  match n with
  | O => ([], this)
  | S n' =>
      let (ts, this') := issueTimestamp this in
      let (l, this'') := issue_many n' this' in
      (ts :: l, this'')
  end.

(** The sequence number [parseTimestamp] decodes from [ts], if any. *)
Definition decoded_seq (this : t) (ts : string) : option Z :=
  match parseTimestamp this ts with
  | (Ok p, _) => Some (pseq p)
  | (Throw _, _) => None
  end.

End Methods.

End LamportClock.

(** ** One codec for the clock *)

Module Base64.
Import Base64x64.

(** Modelled from the spec: the 64 digits of the integer codec, in
    increasing value. *)
Definition base64 : string :=
  "0123456789ABCDEFGHIJKLMNOPQRSTUVWXYZ_abcdefghijklmnopqrstuvwxyz~".

(** The digit of value [d], as a one-character string. *)
Definition digit (d : Z) : string :=
  match String.get (Z.to_nat d) base64 with
  | Some c => String c ""
  | None => ""
  end.

(** Modelled from the spec: [EncodeFixedWidthInt(n, width)], the [w] low
    base-64 digits of [i], most significant first. *)
Fixpoint digits (w : nat) (i : Z) : string :=
  match w with
  | O => ""
  | S w' => digits w' (i / 64) ++ digit (i mod 64)
  end.

Definition int2base (i padlen : Z) : string := digits (Z.to_nat padlen) i.

Fixpoint base2int_from (acc : Z) (s : string) : Z :=
  match s with
  | EmptyString => acc
  | String c s' => base2int_from (acc * 64 + Z.max 0 (indexOf base64 c)) s'
  end.

(** Modelled from the spec: [DecodeInt(text)]. *)
Definition base2int (s : string) : Z := base2int_from 0 s.

(** Modelled from the spec: a process id matches the token grammar when it
    is a non-empty run of alphabet characters. *)
Definition reTok_test (s : string) : bool :=
  match scan64 s with
  | (v, EmptyString) => negb (is_empty v)
  | _ => false
  end.

(** Modelled from the spec: the timestamp grammar
    [<base64-token>+<base64-token>], matched against the whole string. *)
Definition reTokExt_match (ts : string) : option (string * string) :=
  match scan64 ts with
  | (v, String c r) =>
      if (c =? "+")%char
      then match scan64 r with
           | (o, EmptyString) =>
               if is_empty v || is_empty o then None else Some (v, o)
           | _ => None
           end
      else None
  | _ => None
  end.

Definition codec : LamportClock.Codec :=
  {| LamportClock.reTok_test := reTok_test;
     LamportClock.int2base := int2base;
     LamportClock.base2int := base2int;
     LamportClock.reTokExt_match := reTokExt_match |}.

End Base64.

(** ** The specifier grammar, declaratively

    What [Spec.rsSpec] denotes, written as the set of strings it matches
    together with their captures, to compare [Spec.reSpec_exec] with. *)

Module Grammar.
Import Base64x64.

Fixpoint all64 (s : string) : bool :=
  match s with
  | EmptyString => true
  | String c s' => is_base64 c && all64 s'
  end.

(** [B+]: a non-empty run of alphabet characters. *)
Definition run64 (s : string) : Prop := s <> "" /\ all64 s = true.

(** [TOK = B+(\+B+)?] *)
Inductive Tok : string -> Prop :=
| Tok_bare (v : string) : run64 v -> Tok v
| Tok_pair (v o : string) : run64 v -> run64 o -> Tok (v ++ "+" ++ o).

(** The text one factor [(?:\q(TOK))?] matches when its capture is [g]. *)
Definition group (q : ascii) (g : option string) : string :=
  match g with
  | Some t => String q t
  | None => ""
  end.

(** The string [^...$] matches with the captures [g]. *)
Definition render (g : array4 (option string)) : string :=
  group (Spec.quants I0) (at0 g) ++ group (Spec.quants I1) (at1 g)
  ++ group (Spec.quants I2) (at2 g) ++ group (Spec.quants I3) (at3 g).

(** Every capture that is present is a token. *)
Definition valid (g : array4 (option string)) : Prop :=
  forall i t, get g i = Some t -> Tok t.

(** A capture as [exec] reports it: the text, or [undefined]. *)
Definition capture (g : option string) : value :=
  match g with
  | Some t => JStr t
  | None => JUndefined
  end.

Definition captures (g : array4 (option string)) : array4 value :=
  Array4 (capture (at0 g)) (capture (at1 g))
         (capture (at2 g)) (capture (at3 g)).

(** The text of the token a position gets: the text matched, or the text
    of the zero token where nothing was matched. *)
Definition token_text (g : option string) : string :=
  match g with
  | Some t => t
  | None => "0"
  end.

(** What may follow a run of alphabet characters: no alphabet character. *)
Definition stops64 (r : string) : Prop :=
  match r with
  | EmptyString => True
  | String c _ => is_base64 c = false
  end.

(** What may follow a token: the end, or a character that is neither in
    the alphabet nor ['+']. *)
Definition follows_tok (r : string) : bool :=
  match r with
  | EmptyString => true
  | String c _ => negb (is_base64 c) && negb (c =? "+")%char
  end.

(** What may follow the factor of the quant [q]: the end, or a character
    that a token cannot go on with and that is not [q] itself. *)
Definition follows_group (q : ascii) (r : string) : bool :=
  match r with
  | EmptyString => true
  | String c _ => follows_tok r && negb (c =? q)%char
  end.

(** The specifier [new Spec(s)] builds in the heap [h] when [s] matches
    with the captures [g]: four new tokens. *)
Definition parsed_spec (g : array4 (option string)) (h : heap) : spec :=
  mkSpec (Array4 (mkStamp (1 + h) (token_text (at0 g)))
                 (mkStamp (2 + h) (token_text (at1 g)))
                 (mkStamp (3 + h) (token_text (at2 g)))
                 (mkStamp (4 + h) (token_text (at3 g)))).

(** The characters of an [except] argument of [blank]. *)
Definition chars (except : option string) : list ascii :=
  match except with
  | Some e => list_ascii_of_string e
  | None => []
  end.

(** Whether [blank(except)] keeps the position [i]: its quant occurs in
    [except]. *)
Definition keeps (except : option string) (i : index) : bool :=
  existsb (Ascii.eqb (Spec.quants i)) (chars except).

(** The captures of the text [this.toString(defaults)] returns: a position
    is there when its token is another object than the one of [defaults],
    and the name also when nothing came before it. *)
Definition emitted (this defaults : spec) : array4 (option string) :=
  let e := fun i =>
    if Stamp.differs (get (_toks this) i) (get (_toks defaults) i)
    then Some (text (get (_toks this) i)) else None in
  Array4 (e I0) (e I1) (e I2)
         (match e I0, e I1, e I2 with
          | None, None, None => Some (text (get (_toks this) I3))
          | _, _, _ => e I3
          end).

(** A token object as the program can hold one in the heap [h]: its text
    is a token of the grammar, it was created before [h], and the address
    [0] is the one of [Stamp.ZERO]. *)
Definition stamp_ok (h : heap) (t : stamp) : Prop :=
  Tok (text t) /\ addr t <= h /\ (addr t = 0 -> t = Stamp.ZERO).

Definition spec_ok (h : heap) (sp : spec) : Prop :=
  forall i, stamp_ok h (get (_toks sp) i).

(** The token object [t] is one the argument [v] of the constructor
    holds: a slot of a specifier, an element of an array. *)
Definition token_of (v : value) (t : stamp) : Prop :=
  match v with
  | JSpec sp => exists i, get (_toks sp) i = t
  | JArr l => In (JStamp t) l
  | _ => False
  end.

(** An argument of the constructor whose token objects are such. *)
Definition value_ok (h : heap) (v : value) : Prop :=
  match v with
  | JStamp t => stamp_ok h t
  | JSpec sp => spec_ok h sp
  | JArr l => forall t, In (JStamp t) l -> stamp_ok h t
  | _ => True
  end.

End Grammar.

(** ** Notions the statements use *)

(** The call returned normally. *)
Definition returns {A S} (r : result A * S) : Prop :=
  exists a s, r = (Ok a, s).

(** The clock invariant between a state and a later one: the process id is
    the same and the counter has not decreased. *)
Definition clock_step_ok (before after : LamportClock.t) : Prop :=
  LamportClock.id after = LamportClock.id before
  /\ (LamportClock.seq before <= LamportClock.seq after)%Z.

(** The numbers [0, 1, ..., n-1]. *)
Definition upto (n : nat) : list Z := map Z.of_nat (List.seq 0 n).

(** * Properties of the Lamport clock *)

Section ClockProperties.
Import LamportClock.
Context {codec : Codec}.
Local Open Scope Z_scope.

Lemma parseTimestamp_state (this : t) (ts : string) :
  snd (parseTimestamp this ts) = this.
Proof.
  unfold parseTimestamp.
  destruct (reTokExt_match ts) as [[m1 m2]|]; reflexivity.
Qed.

Lemma checkTimestamp_matched (this : t) (ts m1 m2 : string) :
  reTokExt_match ts = Some (m1, m2) ->
  checkTimestamp this ts
  = (Ok true,
     if base2int m1 >=? seq this then mk (id this) (base2int m1 + 1)
     else this).
Proof.
  intros Hm. unfold checkTimestamp, parseTimestamp. rewrite Hm.
  reflexivity.
Qed.

Lemma checkTimestamp_unmatched (this : t) (ts : string) :
  reTokExt_match ts = None ->
  checkTimestamp this ts = (Throw ("malformed timestamp: " ++ ts)%string, this).
Proof.
  intros Hm. unfold checkTimestamp, parseTimestamp. rewrite Hm.
  reflexivity.
Qed.

Lemma decoded_seq_inv (this : t) (ts : string) (k : Z) :
  decoded_seq this ts = Some k ->
  exists m1 m2, reTokExt_match ts = Some (m1, m2) /\ base2int m1 = k.
Proof.
  unfold decoded_seq, parseTimestamp.
  destruct (reTokExt_match ts) as [[m1 m2]|]; simpl; intros H.
  - exists m1, m2. split; [reflexivity | congruence].
  - discriminate.
Qed.

(** C1.  A clock whose counter is [s], observing a timestamp that the
    grammar accepts and whose decoded sequence is [k], returns [true] and
    ends with the counter [k+1] when [k >= s], and is left as it was when
    [k < s]. *)
Theorem checkTimestamp_merge (this : t) (ts : string) (k : Z) :
  decoded_seq this ts = Some k ->
  (k >= seq this ->
   checkTimestamp this ts = (Ok true, mk (id this) (k + 1)))
  /\ (k < seq this -> checkTimestamp this ts = (Ok true, this)).
Proof.
  intros Hk.
  destruct (decoded_seq_inv _ _ _ Hk) as (m1 & m2 & Hm & Hd).
  rewrite (checkTimestamp_matched this ts m1 m2 Hm), Hd.
  split; intros Hs.
  - destruct (Z.geb_spec k (seq this)) as [_|Hlt]; [reflexivity | lia].
  - destruct (Z.geb_spec k (seq this)) as [Hge|_]; [lia | reflexivity].
Qed.

(** C3, as amended.  [checkTimestamp] returns [true] for every string the
    timestamp grammar accepts, and throws "malformed timestamp" for every
    other string, leaving the clock as it was. *)
Theorem checkTimestamp_succeeds_iff_matched (this : t) (ts : string) :
  (reTokExt_match ts <> None ->
   exists this', checkTimestamp this ts = (Ok true, this'))
  /\ (reTokExt_match ts = None ->
      checkTimestamp this ts
      = (Throw ("malformed timestamp: " ++ ts)%string, this)).
Proof.
  split.
  - intros Hm. destruct (reTokExt_match ts) as [[m1 m2]|] eqn:E.
    + rewrite (checkTimestamp_matched this ts m1 m2 E). eexists. reflexivity.
    + contradiction.
  - apply checkTimestamp_unmatched.
Qed.

Lemma issue_many_spec (n : nat) (this : t) :
  issue_many n this
  = (map (fun k => (int2base (seq this + Z.of_nat k) 5 ++ "+" ++ id this)%string)
         (List.seq 0 n),
     mk (id this) (seq this + Z.of_nat n)).
Proof.
  revert this. induction n as [|n IH]; intros this.
  - simpl. rewrite Z.add_0_r. destruct this; reflexivity.
  - cbn [issue_many issueTimestamp]. rewrite IH. cbn [id seq List.seq map].
    rewrite <- seq_shift, map_map, Z.add_0_r. f_equal.
    + f_equal. apply map_ext. intros k. do 2 f_equal. lia.
    + f_equal. lia.
Qed.

Lemma upto_sorted (n : nat) : StronglySorted Z.lt (upto n).
Proof.
  unfold upto. generalize 0%nat as a. induction n as [|n IH]; intros a.
  - constructor.
  - cbn [List.seq map]. constructor; [apply IH|].
    apply Forall_forall. intros x Hx.
    apply in_map_iff in Hx. destruct Hx as (y & <- & Hy).
    apply in_seq in Hy. lia.
Qed.

(** The sequence of a fresh clock under any codec: [n] consecutive calls
    return the encodings of [0, 1, ..., n-1] in this order, and where the
    codec decodes what it encodes for these counters, the sequence numbers
    decoded from them are [0, 1, ..., n-1]. *)
Lemma issueTimestamp_sequence (p : string) (c : t) (n : nat) :
  new p = Ok c ->
  (forall k, (k < n)%nat ->
     reTokExt_match (int2base (Z.of_nat k) 5 ++ "+" ++ p)%string
     = Some (int2base (Z.of_nat k) 5, p)) ->
  (forall k, (k < n)%nat ->
     base2int (int2base (Z.of_nat k) 5) = Z.of_nat k) ->
  (forall this,
      issueTimestamp this
      = ((int2base (seq this) 5 ++ "+" ++ id this)%string,
         mk (id this) (seq this + 1)))
  /\ fst (issue_many n c)
     = map (fun k => (int2base k 5 ++ "+" ++ p)%string) (upto n)
  /\ map (decoded_seq c) (fst (issue_many n c)) = map Some (upto n)
  /\ StronglySorted Z.lt (upto n)
  /\ snd (issue_many n c) = mk p (Z.of_nat n).
Proof.
  intros Hnew Hgram Hcodec.
  assert (Hc : c = mk p 0).
  { unfold new in Hnew. destruct (negb (reTok_test p)); congruence. }
  subst c. rewrite issue_many_spec. cbn [fst snd id seq].
  split; [reflexivity|]. split; [|split; [|split]].
  - unfold upto. rewrite map_map. reflexivity.
  - unfold upto. rewrite !map_map. apply map_ext_in. intros k Hk.
    apply in_seq in Hk. cbn [Z.add].
    unfold decoded_seq, parseTimestamp.
    rewrite (Hgram k) by lia. cbn [pseq]. rewrite (Hcodec k) by lia.
    reflexivity.
  - apply upto_sorted.
  - reflexivity.
Qed.

(** C9.  Every operation of the clock leaves the process id as it was and
    does not decrease the counter: [issueTimestamp], [checkTimestamp],
    [parseTimestamp], [adjustTime] and [time2date]. *)
Theorem clock_operations_preserve_invariant (this : t) (ts : string) :
  clock_step_ok this (snd (issueTimestamp this))
  /\ clock_step_ok this (snd (checkTimestamp this ts))
  /\ clock_step_ok this (snd (parseTimestamp this ts))
  /\ clock_step_ok this (snd (adjustTime this))
  /\ clock_step_ok this (snd (time2date this)).
Proof.
  unfold clock_step_ok. repeat split; cbn [snd issueTimestamp id seq adjustTime time2date];
    try rewrite parseTimestamp_state; try lia; try reflexivity.
  - unfold checkTimestamp, parseTimestamp.
    destruct (reTokExt_match ts) as [[m1 m2]|]; cbn [snd pseq]; [|reflexivity].
    destruct (base2int m1 >=? seq this); reflexivity.
  - unfold checkTimestamp, parseTimestamp.
    destruct (reTokExt_match ts) as [[m1 m2]|]; cbn [snd pseq]; [|lia].
    destruct (Z.geb_spec (base2int m1) (seq this)); cbn [seq]; lia.
Qed.

End ClockProperties.

(** * Properties of the specifier grammar and of [new Spec] *)

Section ScanProperties.
Import Base64x64 Grammar.

Lemma append_assoc (a b c : string) : (a ++ b) ++ c = a ++ (b ++ c).
Proof. induction a as [|x a IH]; simpl; [reflexivity | now rewrite IH]. Qed.

Lemma append_nil_r (a : string) : a ++ "" = a.
Proof. induction a as [|x a IH]; simpl; [reflexivity | now rewrite IH]. Qed.

Lemma is_empty_false (s : string) : s <> "" -> is_empty s = false.
Proof. destruct s; [congruence | reflexivity]. Qed.

Lemma is_empty_true (s : string) : is_empty s = true -> s = "".
Proof. destruct s; [reflexivity | discriminate]. Qed.

Lemma scan64_sound (s v r : string) :
  scan64 s = (v, r) -> s = v ++ r /\ all64 v = true /\ stops64 r.
Proof.
  revert v r. induction s as [|c s IH]; simpl; intros v r H.
  - inversion H; subst. repeat split.
  - destruct (is_base64 c) eqn:Ec.
    + destruct (scan64 s) as [v' r'] eqn:Es. inversion H; subst.
      destruct (IH _ _ eq_refl) as (-> & Hv & Hr).
      simpl. rewrite Ec, Hv. repeat split. exact Hr.
    + inversion H; subst. simpl. repeat split. exact Ec.
Qed.

Lemma scan64_complete (v r : string) :
  all64 v = true -> stops64 r -> scan64 (v ++ r) = (v, r).
Proof.
  induction v as [|c v IH]; simpl; intros Hv Hr.
  - destruct r as [|d r]; simpl; [reflexivity|]. simpl in Hr. now rewrite Hr.
  - apply andb_true_iff in Hv. destruct Hv as [Hc Hv].
    rewrite Hc, (IH Hv Hr). reflexivity.
Qed.

Lemma follows_tok_stops (r : string) : follows_tok r = true -> stops64 r.
Proof.
  destruct r as [|c r]; simpl; [trivial|].
  intros H. apply andb_true_iff in H. destruct H as [H _].
  now apply negb_true_iff in H.
Qed.

Lemma scanTok_complete (t r : string) :
  Tok t -> follows_tok r = true -> Stamp.scanTok (t ++ r) = Some (t, r).
Proof.
  intros Ht Hr. unfold Stamp.scanTok. destruct Ht as [v [Hne Hv] | v o [Hne Hv] [Hno Ho]].
  - rewrite (scan64_complete v r Hv (follows_tok_stops r Hr)).
    rewrite (is_empty_false v Hne).
    destruct r as [|c r]; [reflexivity|].
    simpl in Hr. apply andb_true_iff in Hr. destruct Hr as [_ Hp].
    apply negb_true_iff in Hp. now rewrite Hp.
  - rewrite append_assoc. simpl.
    rewrite (scan64_complete v _ Hv) by reflexivity.
    rewrite (is_empty_false v Hne). simpl.
    rewrite (scan64_complete o r Ho (follows_tok_stops r Hr)).
    now rewrite (is_empty_false o Hno).
Qed.

Lemma scanTok_sound (s t r : string) :
  Stamp.scanTok s = Some (t, r) -> s = t ++ r /\ Tok t.
Proof.
  unfold Stamp.scanTok. destruct (scan64 s) as [v r0] eqn:Es.
  destruct (scan64_sound _ _ _ Es) as (-> & Hv & Hr0).
  destruct (is_empty v) eqn:Ev; [discriminate|].
  assert (Hrun : run64 v).
  { split; [|exact Hv]. intros ->. discriminate. }
  destruct r0 as [|c r0].
  - intros H; inversion H; subst. split; [reflexivity | now constructor].
  - destruct (Ascii.eqb_spec c "+") as [->|Hc].
    + destruct (scan64 r0) as [o r2] eqn:Eo.
      destruct (scan64_sound _ _ _ Eo) as (-> & Ho & Hr2).
      destruct (is_empty o) eqn:Eoe; intros H; inversion H; subst.
      * split; [reflexivity | now constructor].
      * split.
        -- rewrite append_assoc. reflexivity.
        -- constructor; [exact Hrun|]. split; [|exact Ho]. intros ->. discriminate.
    + intros H; inversion H; subst. split; [reflexivity | now constructor].
Qed.

Lemma Tok_nonempty (t : string) : Tok t -> t <> "".
Proof.
  intros [v [Hne _] | v o [Hne _] _]; [exact Hne|].
  destruct v; [congruence | discriminate].
Qed.

Lemma Tok_is_tok (t : string) : Tok t -> Stamp.is_tok t = true.
Proof.
  intros Ht. unfold Stamp.is_tok.
  rewrite <- (append_nil_r t) at 1.
  now rewrite (scanTok_complete t "" Ht eq_refl).
Qed.

Lemma scanGroup_complete (q : ascii) (g : option string) (r : string) :
  (forall t, g = Some t -> Tok t) ->
  follows_group q r = true ->
  Spec.scanGroup q (group q g ++ r) = (capture g, r).
Proof.
  intros Hg Hr. destruct g as [t|]; simpl.
  - rewrite Ascii.eqb_refl.
    assert (Hf : follows_tok r = true).
    { destruct r; [reflexivity|]. simpl in Hr.
      apply andb_true_iff in Hr. tauto. }
    now rewrite (scanTok_complete t r (Hg t eq_refl) Hf).
  - destruct r as [|c r]; [reflexivity|]. simpl in Hr.
    apply andb_true_iff in Hr. destruct Hr as [_ Hq].
    apply negb_true_iff in Hq. simpl. now rewrite Hq.
Qed.

Lemma scanGroup_sound (q : ascii) (s r : string) (m : value) :
  Spec.scanGroup q s = (m, r) ->
  exists g, m = capture g /\ s = group q g ++ r /\ (forall t, g = Some t -> Tok t).
Proof.
  unfold Spec.scanGroup. destruct s as [|c s].
  - intros H; inversion H; subst. exists None. repeat split. discriminate.
  - destruct (Ascii.eqb_spec c q) as [->|Hc].
    + destruct (Stamp.scanTok s) as [[t r']|] eqn:Et; intros H; inversion H; subst.
      * destruct (scanTok_sound _ _ _ Et) as (-> & Ht).
        exists (Some t). repeat split. intros t' E; inversion E; subst; exact Ht.
      * exists None. repeat split. discriminate.
    + intros H; inversion H; subst. exists None. repeat split. discriminate.
Qed.

Lemma reSpec_exec_complete (g : array4 (option string)) :
  valid g -> Spec.reSpec_exec (render g) = Some (captures g).
Proof.
  intros Hg. destruct g as [g0 g1 g2 g3]. unfold render, Spec.reSpec_exec.
  cbn [at0 at1 at2 at3].
  rewrite scanGroup_complete;
    [|exact (Hg I0)|destruct g1, g2, g3; reflexivity].
  rewrite scanGroup_complete;
    [|exact (Hg I1)|destruct g2, g3; reflexivity].
  rewrite scanGroup_complete;
    [|exact (Hg I2)|destruct g3; reflexivity].
  rewrite <- (append_nil_r (group (Spec.quants I3) g3)).
  rewrite scanGroup_complete; [reflexivity|exact (Hg I3)|reflexivity].
Qed.

Lemma reSpec_exec_sound (s : string) (m : array4 value) :
  Spec.reSpec_exec s = Some m ->
  exists g, valid g /\ m = captures g /\ s = render g.
Proof.
  unfold Spec.reSpec_exec.
  destruct (Spec.scanGroup (Spec.quants I0) s) as [m1 r1] eqn:E1.
  destruct (Spec.scanGroup (Spec.quants I1) r1) as [m2 r2] eqn:E2.
  destruct (Spec.scanGroup (Spec.quants I2) r2) as [m3 r3] eqn:E3.
  destruct (Spec.scanGroup (Spec.quants I3) r3) as [m4 r4] eqn:E4.
  destruct (is_empty r4) eqn:Er; [|discriminate].
  apply is_empty_true in Er. subst r4.
  intros H; inversion H; subst m; clear H.
  destruct (scanGroup_sound _ _ _ _ E1) as (g0 & -> & -> & H0).
  destruct (scanGroup_sound _ _ _ _ E2) as (g1 & -> & -> & H1).
  destruct (scanGroup_sound _ _ _ _ E3) as (g2 & -> & -> & H2).
  destruct (scanGroup_sound _ _ _ _ E4) as (g3 & -> & -> & H3).
  exists (Array4 g0 g1 g2 g3). split; [|split].
  - intros [] t; cbn [get at0 at1 at2 at3]; auto.
  - reflexivity.
  - unfold render. cbn [at0 at1 at2 at3]. now rewrite append_nil_r.
Qed.


Lemma Tok_zero : Tok "0".
Proof. constructor. split; [discriminate | reflexivity]. Qed.

Lemma stamp_new_capture (g : option string) (h : heap) :
  (forall t, g = Some t -> Tok t) ->
  Stamp.new (capture g) h = (Ok (mkStamp (S h) (token_text g)), S h).
Proof.
  intros Hg. destruct g as [t|]; [|reflexivity].
  pose proof (Hg t eq_refl) as Ht. unfold Stamp.new. cbn [capture truthy].
  destruct t as [|c t]; [now apply Tok_nonempty in Ht|].
  cbn [String.eqb negb]. rewrite (Tok_is_tok _ Ht). reflexivity.
Qed.

Lemma truthy_nonempty (s : string) : s <> "" -> truthy (JStr s) = true.
Proof. destruct s; [congruence | reflexivity]. Qed.

Lemma new_matched (g : array4 (option string)) (h : heap) :
  valid g -> render g <> "" ->
  Spec.new (JStr (render g)) h = (Ok (parsed_spec g h), 4 + h).
Proof.
  intros Hg Hne. unfold Spec.new.
  rewrite (truthy_nonempty _ Hne), (reSpec_exec_complete g Hg).
  destruct g as [g0 g1 g2 g3].
  assert (H0 := Hg I0). assert (H1 := Hg I1).
  assert (H2 := Hg I2). assert (H3 := Hg I3).
  cbn [get at0 at1 at2 at3] in H0, H1, H2, H3.
  assert (Hnn : forall o, not_null (capture o) = true) by (intros []; reflexivity).
  cbv [indices for_each captures bind ret negb get set at0 at1 at2 at3
       Spec.zero_toks].
  rewrite !Hnn.
  rewrite (stamp_new_capture g0 h H0).
  rewrite (stamp_new_capture g1 _ H1).
  rewrite (stamp_new_capture g2 _ H2).
  rewrite (stamp_new_capture g3 _ H3).
  reflexivity.
Qed.

Lemma new_unmatched (s : string) (h : heap) :
  s <> "" -> Spec.reSpec_exec s = None ->
  Spec.new (JStr s) h = (Throw "invalid spec", h).
Proof.
  intros Hne Hm. unfold Spec.new.
  now rewrite (truthy_nonempty _ Hne), Hm.
Qed.

Lemma toString_parsed (g : array4 (option string)) (h : heap) :
  Spec.toString (parsed_spec g h) None
  = render (Array4 (Some (token_text (at0 g))) (Some (token_text (at1 g)))
                   (Some (token_text (at2 g))) (Some (token_text (at3 g)))).
Proof.
  unfold Spec.toString, parsed_spec, render, indices, Spec.toString_step.
  cbn. rewrite !append_assoc. reflexivity.
Qed.

End ScanProperties.

(** * Properties of specifiers *)

Section SpecProperties.
Import Base64x64 Grammar.

Lemma equal_parsed (g : array4 (option string)) (h h' : heap) :
  Spec.equal
    (parsed_spec (Array4 (Some (token_text (at0 g))) (Some (token_text (at1 g)))
                         (Some (token_text (at2 g))) (Some (token_text (at3 g)))) h')
    (parsed_spec g h) = true.
Proof.
  unfold Spec.equal, parsed_spec, indices, Stamp.eq.
  cbn. now rewrite !String.eqb_refl.
Qed.

Lemma valid_texts (g : array4 (option string)) :
  valid g ->
  valid (Array4 (Some (token_text (at0 g))) (Some (token_text (at1 g)))
                (Some (token_text (at2 g))) (Some (token_text (at3 g)))).
Proof.
  intros Hg i t. destruct g as [g0 g1 g2 g3].
  assert (Ht : forall j o, get (Array4 g0 g1 g2 g3) j = o -> Tok (token_text o)).
  { intros j [u|] Hj; [exact (Hg j u Hj) | exact Tok_zero]. }
  destruct i; cbn [get at0 at1 at2 at3]; intros E; inversion E; subst.
  - exact (Ht I0 _ eq_refl).
  - exact (Ht I1 _ eq_refl).
  - exact (Ht I2 _ eq_refl).
  - exact (Ht I3 _ eq_refl).
Qed.

(** C2.  For every string [s] the specifier grammar accepts, [new Spec(s)]
    succeeds, its serialization against the default baseline parses again,
    and the specifier parsed from the serialization is structurally equal
    to the one parsed from [s]. *)
Theorem parse_serialize_parse (s : string) (h : heap) :
  Spec.is_ s = true ->
  exists sp h1 sp' h2,
    Spec.new (JStr s) h = (Ok sp, h1)
    /\ Spec.new (JStr (Spec.toString sp None)) h1 = (Ok sp', h2)
    /\ Spec.equal sp' sp = true.
Proof.
  intros Hs. destruct s as [|c s].
  - eexists _, _, _, _. repeat split.
  - unfold Spec.is_ in Hs.
    destruct (Spec.reSpec_exec (String c s)) as [m|] eqn:Em; [|discriminate].
    destruct (reSpec_exec_sound _ _ Em) as (g & Hg & _ & Hr).
    assert (Hne : render g <> "") by (rewrite <- Hr; discriminate).
    rewrite Hr.
    exists (parsed_spec g h), (4 + h).
    eexists _, _. split; [exact (new_matched g h Hg Hne)|].
    rewrite toString_parsed. split.
    + apply new_matched; [exact (valid_texts g Hg) | discriminate].
    + apply equal_parsed.
Qed.

Lemma parse_serialize_parse_witness :
  Spec.is_ "/TodoItem#7AM0f+gritzko" = true
  /\ exists sp h1 sp' h2,
       Spec.new (JStr "/TodoItem#7AM0f+gritzko") 0 = (Ok sp, h1)
       /\ Spec.new (JStr (Spec.toString sp None)) h1 = (Ok sp', h2)
       /\ Spec.equal sp' sp = true.
Proof.
  split; [reflexivity|].
  apply (parse_serialize_parse "/TodoItem#7AM0f+gritzko" 0). reflexivity.
Defined.

(** C6, the example as the specification gives it: the name comes before the
    stamp in it, which the grammar, with its fixed order [/ # ! .], does
    not accept. *)
Lemma new_rejects_name_before_stamp :
  Spec.new (JStr "/TodoItem#7AM0f+gritzko.done!7AMTc+gritzko") 0
  = (Throw "invalid spec", 0)
  /\ ~ (exists sp h',
          Spec.new (JStr "/TodoItem#7AM0f+gritzko.done!7AMTc+gritzko") 0
          = (Ok sp, h')
          /\ Spec.type sp = "TodoItem" /\ Spec.id sp = "7AM0f+gritzko"
          /\ Spec.stamp_ sp = "7AMTc+gritzko" /\ Spec.name sp = "done").
Proof.
  split; [reflexivity|].
  intros (sp & h' & H & _). vm_compute in H. discriminate.
Qed.

Lemma render_empty :
  render (Array4 None None None None) = "".
Proof. reflexivity. Qed.

Lemma render_empty_inv (g : array4 (option string)) :
  render g = "" -> g = Array4 None None None None.
Proof.
  destruct g as [[t0|] [t1|] [t2|] [t3|]]; cbn; intros H;
    try discriminate H; reflexivity.
Qed.

(** C6, as amended.  [new Spec(s)] on a string is a match of the whole
    string against the grammar: where [s] is the text of up to four groups,
    a quant followed by a token, in the order [/ # ! .], the result holds
    at every position that is present a token with the text matched and at
    every other position a token structurally equal to the zero sentinel;
    any other string is rejected with "invalid spec".  So ["X#Y"] is
    rejected, and ["/TodoItem#7AM0f+gritzko!7AMTc+gritzko.done"], with the
    stamp before the name, has the type ["TodoItem"], the id
    ["7AM0f+gritzko"], the stamp ["7AMTc+gritzko"] and the name ["done"]. *)
Theorem new_from_string (h : heap) :
  (forall g,
      valid g ->
      exists sp h',
        Spec.new (JStr (render g)) h = (Ok sp, h')
        /\ (forall i t, get g i = Some t ->
                        Stamp.string (get (_toks sp) i) = t)
        /\ (forall i, get g i = None ->
                      Stamp.eq (get (_toks sp) i) Stamp.ZERO = true))
  /\ (forall s,
         (forall g, valid g -> s <> render g) ->
         Spec.new (JStr s) h = (Throw "invalid spec", h))
  /\ Spec.new (JStr "X#Y") h = (Throw "invalid spec", h)
  /\ (exists sp h',
         Spec.new (JStr "/TodoItem#7AM0f+gritzko!7AMTc+gritzko.done") h
         = (Ok sp, h')
         /\ Spec.type sp = "TodoItem" /\ Spec.id sp = "7AM0f+gritzko"
         /\ Spec.stamp_ sp = "7AMTc+gritzko" /\ Spec.name sp = "done").
Proof.
  split; [|split; [|split]].
  - intros g Hg. destruct (render g) as [|c r] eqn:Er.
    + apply render_empty_inv in Er. subst g.
      exists Spec.NON_SPECIFIC_NOOP, h. split; [reflexivity|].
      split; intros [] *; cbn; intros E; (discriminate E || reflexivity).
    + exists (parsed_spec g h), (4 + h). split.
      * rewrite <- Er. apply (new_matched g h Hg). rewrite Er. discriminate.
      * destruct g as [g0 g1 g2 g3].
        split; intros [] *; cbn [get at0 at1 at2 at3 parsed_spec _toks];
          intros ->; reflexivity.
  - intros s Hno.
    assert (Hne : s <> "").
    { intros ->. apply (Hno (Array4 None None None None)).
      - intros [] t E; discriminate E.
      - reflexivity. }
    apply new_unmatched; [exact Hne|].
    destruct (Spec.reSpec_exec s) as [m|] eqn:Em; [|reflexivity].
    destruct (reSpec_exec_sound _ _ Em) as (g & Hg & _ & Hr).
    now destruct (Hno g Hg).
  - reflexivity.
  - eexists _, _. split; [reflexivity|]. repeat split.
Qed.

Lemma valid_example :
  valid (Array4 (Some "TodoItem") None (Some "7AMTc+gritzko") None).
Proof.
  intros [] t E; inversion E; subst.
  - apply Tok_bare. split; [discriminate | reflexivity].
  - apply (Tok_pair "7AMTc" "gritzko"); split; (discriminate || reflexivity).
Qed.

Lemma new_from_string_witness :
  (exists sp h',
      Spec.new (JStr "/TodoItem!7AMTc+gritzko") 0 = (Ok sp, h')
      /\ Spec.type sp = "TodoItem"
      /\ Stamp.eq (Spec.Id sp) Stamp.ZERO = true)
  /\ Spec.new (JStr "X#Y") 0 = (Throw "invalid spec", 0).
Proof.
  destruct (new_from_string 0) as (Hok & Hbad & _).
  split.
  - destruct (Hok (Array4 (Some "TodoItem") None (Some "7AMTc+gritzko") None)
                  valid_example) as (sp & h' & Hsp & Ht & Hz).
    exists sp, h'. split; [exact Hsp|]. split.
    + exact (Ht I0 "TodoItem" eq_refl).
    + exact (Hz I1 eq_refl).
  - apply Hbad.
    intros g Hg E. pose proof (reSpec_exec_complete g Hg) as Hc.
    rewrite <- E in Hc. discriminate.
Defined.

Lemma new_array_of (toks : array4 stamp) (h : heap) :
  Spec.new (Spec.array_of toks) h = (Ok (mkSpec toks), h).
Proof. destruct toks. reflexivity. Qed.

Lemma indexOf_lower (s : string) (c : ascii) : (-1 <= indexOf s c)%Z.
Proof.
  induction s as [|d s IH]; simpl; [lia|].
  destruct (d =? c)%char; [lia|].
  destruct (Z.eqb_spec (indexOf s c) (-1)); lia.
Qed.

Lemma indexOf_absent (s : string) (c : ascii) :
  indexOf s c = (-1)%Z <-> ~ In c (list_ascii_of_string s).
Proof.
  induction s as [|d s IH]; simpl.
  - split; [tauto | reflexivity].
  - destruct (Ascii.eqb_spec d c) as [->|Hd].
    + split; [discriminate | intros H; exfalso; apply H; now left].
    + pose proof (indexOf_lower s c).
      destruct (Z.eqb_spec (indexOf s c) (-1)) as [E|E].
      * split; [|reflexivity]. intros _ [H'|H']; [congruence | now apply IH in H'].
      * split; [lia|]. intros H'. exfalso. apply E, IH. tauto.
Qed.

Lemma except_default (e : string) :
  (if negb (truthy (JStr e)) then "" else e) = e.
Proof. destruct e; reflexivity. Qed.

Lemma blank_absent (except : option string) (c : ascii) :
  (indexOf (match except with
            | None => ""
            | Some e => if negb (truthy (JStr e)) then "" else e
            end) c =? -1)%Z = true
  <-> ~ In c (chars except).
Proof.
  rewrite Z.eqb_eq. destruct except as [e|]; cbn [chars].
  - rewrite except_default. apply indexOf_absent.
  - simpl. tauto.
Qed.

(** C8.  [a.blank(x)] returns a specifier that holds the zero sentinel at
    every position whose quant is not in [x] and the token of [a] at every
    position whose quant is in [x]; blanking the result again with [x]
    returns the same specifier. *)
Theorem blank_zeroes_outside (a : spec) (except : option string) (h : heap) :
  exists b,
    Spec.blank a except h = (Ok b, h)
    /\ (forall i, In (Spec.quants i) (chars except) ->
                  get (_toks b) i = get (_toks a) i)
    /\ (forall i, ~ In (Spec.quants i) (chars except) ->
                  get (_toks b) i = Stamp.ZERO)
    /\ Spec.blank b except h = (Ok b, h)
    /\ Spec.equal b b = true.
Proof.
  unfold Spec.blank. rewrite !new_array_of.
  eexists. split; [reflexivity|].
  pose proof (blank_absent except) as Habs.
  set (x := match except with
            | None => ""
            | Some e => if negb (truthy (JStr e)) then "" else e
            end) in *.
  destruct a as [[a0 a1 a2 a3]].
  cbn [fold_left indices _toks].
  assert (Hin : forall i, In (Spec.quants i) (chars except) ->
                          (indexOf x (Spec.quants i) =? -1)%Z = false).
  { intros i Hi. destruct (indexOf x (Spec.quants i) =? -1)%Z eqn:E;
      [|reflexivity]. now apply Habs in E. }
  assert (Hout : forall i, ~ In (Spec.quants i) (chars except) ->
                           (indexOf x (Spec.quants i) =? -1)%Z = true).
  { intros i Hi. now apply Habs. }
  clearbody x. clear Habs.
  destruct (indexOf x (Spec.quants I0) =? -1)%Z eqn:E0;
    destruct (indexOf x (Spec.quants I1) =? -1)%Z eqn:E1;
    destruct (indexOf x (Spec.quants I2) =? -1)%Z eqn:E2;
    destruct (indexOf x (Spec.quants I3) =? -1)%Z eqn:E3;
    cbn [set get at0 at1 at2 at3 _toks fold_left];
    rewrite ?E0, ?E1, ?E2, ?E3;
    cbn [set get at0 at1 at2 at3 _toks];
    (split; [|split; [|split]];
     [ intros [] Hi; try reflexivity; apply Hin in Hi; congruence
     | intros [] Hi; try reflexivity; apply Hout in Hi; congruence
     | reflexivity
     | unfold Spec.equal, Stamp.eq, indices; cbn;
       now rewrite ?String.eqb_refl ]).
Qed.

Lemma blank_zeroes_outside_witness :
  exists b,
    Spec.blank (parsed_spec (Array4 (Some "TodoItem") (Some "7AM0f+gritzko")
                                    (Some "7AMTc+gritzko") (Some "done")) 0)
               (Some "/#") 4 = (Ok b, 4)
    /\ Spec.Type_ b = mkStamp 1 "TodoItem"
    /\ Spec.Name b = Stamp.ZERO.
Proof.
  destruct (blank_zeroes_outside
              (parsed_spec (Array4 (Some "TodoItem") (Some "7AM0f+gritzko")
                                   (Some "7AMTc+gritzko") (Some "done")) 0)
              (Some "/#") 4) as (b & Hb & Hin & Hout & _).
  exists b. split; [exact Hb|]. split.
  - apply (Hin I0). simpl. tauto.
  - apply (Hout I3). simpl. intros [H|[H|[]]]; discriminate.
Defined.

(** C5, at two specifiers parsed from the same text.  Their tokens are
    structurally equal at every position, and still [toString] emits every
    position: it compares the tokens with [!==], which tells two objects
    apart whatever they hold, where [isSameObject] compares tokens with
    [eq].  Omitting the positions that equal the baseline would leave the
    name alone, [".D"]. *)
Theorem toString_emits_equal_tokens :
  exists a d,
    Spec.new (JStr "/A#B!C.D") 0 = (Ok a, 4)
    /\ Spec.new (JStr "/A#B!C.D") 4 = (Ok d, 8)
    /\ Spec.equal a d = true
    /\ Spec.isSameObject a (JSpec d) 8 = (Ok true, 8)
    /\ Spec.toString a (Some d) = "/A#B!C.D"
    /\ Spec.toString a (Some d) <> ".D".
Proof.
  eexists _, _. split; [reflexivity|]. split; [reflexivity|].
  split; [reflexivity|]. split; [reflexivity|].
  split; [reflexivity | discriminate].
Qed.

(** The empty specifier serializes to [".0"]. *)
Lemma toString_empty : Spec.toString Spec.NON_SPECIFIC_NOOP None = ".0".
Proof. reflexivity. Qed.

(** The same comparison after [new Spec("/A")]: the constructor tests
    [m[i]!==null], which holds for the [undefined] of a group that did not
    match too, so the three other positions get tokens of their own, and
    the default serialization emits their zeros. *)
Lemma toString_emits_absent_positions :
  exists a,
    Spec.new (JStr "/A") 0 = (Ok a, 4)
    /\ Spec.toString a None = "/A#0!0.0".
Proof. eexists. split; reflexivity. Qed.

(** Where the tokens are the sentinel itself the comparison does what is
    meant: [typeid] blanks the stamp and the name and serializes the rest. *)
Lemma typeid_example :
  Spec.typeid
    (parsed_spec (Array4 (Some "TodoItem") (Some "7AM0f+gritzko")
                         (Some "7AMTc+gritzko") (Some "done")) 0) 4
  = (Ok "/TodoItem#7AM0f+gritzko", 4).
Proof. reflexivity. Qed.

(** [scope] is [undefined] whatever the specifier holds. *)
Lemma scope_undefined (this : spec) : Spec.scope this = Ok JUndefined.
Proof. reflexivity. Qed.

(** C7, at a specifier whose name token carries an origin.  The origin
    embedded in the name token is ["gritzko"], which is what [origin]
    reads off the stamp token of the same specifier; [scope] reads the
    property off the name's string instead of the token and returns
    [undefined]. *)
Theorem scope_reads_string_not_token :
  exists sp,
    Spec.new (JStr "/TodoItem#7AM0f+gritzko!7AMTc+gritzko.done+gritzko") 0
    = (Ok sp, 4)
    /\ Spec.name sp = "done+gritzko"
    /\ Stamp.origin (Spec.Name sp) = "gritzko"
    /\ Spec.origin sp = Ok (JStr "gritzko")
    /\ Spec.scope sp = Ok JUndefined.
Proof.
  eexists. split; [reflexivity|]. repeat split.
Qed.

(** C10.  [new Spec(v)] succeeds for every falsy [v], among them
    [undefined], [null], [false], [0] and the empty string, and returns
    the empty specifier: all four positions are the zero sentinel itself,
    and no token is created, as the match of a string would do. *)
Theorem new_from_falsy (h : heap) :
  Spec.new JUndefined h = (Ok Spec.NON_SPECIFIC_NOOP, h)
  /\ Spec.new JNull h = (Ok Spec.NON_SPECIFIC_NOOP, h)
  /\ Spec.new (JBool false) h = (Ok Spec.NON_SPECIFIC_NOOP, h)
  /\ Spec.new (JNum 0) h = (Ok Spec.NON_SPECIFIC_NOOP, h)
  /\ Spec.new (JStr "") h = (Ok Spec.NON_SPECIFIC_NOOP, h)
  /\ (forall v, truthy v = false ->
                Spec.new v h = (Ok Spec.NON_SPECIFIC_NOOP, h))
  /\ (forall i, get (_toks Spec.NON_SPECIFIC_NOOP) i = Stamp.ZERO)
  /\ Spec.isEmpty Spec.NON_SPECIFIC_NOOP = true.
Proof.
  repeat split.
  - intros v Hv. unfold Spec.new. now rewrite Hv.
  - intros []; reflexivity.
Qed.

Lemma new_from_falsy_witness :
  truthy (JStr "") = false
  /\ Spec.new (JStr "") 7 = (Ok Spec.NON_SPECIFIC_NOOP, 7).
Proof.
  split; [reflexivity|].
  apply (proj1 (proj2 (proj2 (proj2 (proj2 (proj2 (new_from_falsy 7))))))).
  reflexivity.
Defined.

End SpecProperties.

(** * The clock with the codec of [Base64] *)

Section Base64Codec.
Import Base64x64 Grammar LamportClock.
Local Open Scope Z_scope.









End Base64Codec.



Section Base64Bound.
Import Base64x64 Grammar LamportClock.
Local Open Scope Z_scope.




End Base64Bound.

Section ClockExamples.
Import LamportClock.
Local Open Scope Z_scope.

Lemma checkTimestamp_merge_witness :
  checkTimestamp (codec := Base64.codec) (mk "gritzko" 5) "0000A+joe"
  = (Ok true, mk "gritzko" 11)
  /\ checkTimestamp (codec := Base64.codec) (mk "gritzko" 5) "00004+joe"
     = (Ok true, mk "gritzko" 5).
Proof.
  split.
  - apply (proj1 (checkTimestamp_merge (codec := Base64.codec)
                    (mk "gritzko" 5) "0000A+joe" 10 eq_refl)).
    simpl. lia.
  - apply (proj2 (checkTimestamp_merge (codec := Base64.codec)
                    (mk "gritzko" 5) "00004+joe" 4 eq_refl)).
    simpl. lia.
Defined.

(** C3, at a string the timestamp grammar does not accept: the call does
    not return, it throws. *)
Lemma checkTimestamp_rejects_unmatched :
  checkTimestamp (codec := Base64.codec) (mk "gritzko" 0) "!"
  = (Throw "malformed timestamp: !"%string, mk "gritzko" 0)
  /\ ~ returns (checkTimestamp (codec := Base64.codec) (mk "gritzko" 0) "!").
Proof.
  split; [reflexivity|].
  intros (b & c & H). vm_compute in H. discriminate.
Qed.

Lemma checkTimestamp_succeeds_iff_matched_witness :
  (exists this',
      checkTimestamp (codec := Base64.codec) (mk "gritzko" 5) "0000A+joe"
      = (Ok true, this'))
  /\ checkTimestamp (codec := Base64.codec) (mk "gritzko" 5) "!"
     = (Throw "malformed timestamp: !"%string, mk "gritzko" 5).
Proof.
  split.
  - apply (proj1 (checkTimestamp_succeeds_iff_matched
                    (codec := Base64.codec) (mk "gritzko" 5) "0000A+joe")).
    vm_compute. discriminate.
  - apply (proj2 (checkTimestamp_succeeds_iff_matched
                    (codec := Base64.codec) (mk "gritzko" 5) "!")).
    reflexivity.
Defined.

End ClockExamples.

(** * Further properties of the Lamport clock *)

Section ClockMerge.
Import LamportClock.
Context {codec : Codec}.
Local Open Scope Z_scope.

(** What [checkTimestamp] does in every case, in one equation. *)
Lemma checkTimestamp_cases (this : t) (ts : string) :
  checkTimestamp this ts
  = match reTokExt_match ts with
    | Some (m1, _) => (Ok true, mk (id this) (Z.max (seq this) (base2int m1 + 1)))
    | None => (Throw ("malformed timestamp: " ++ ts)%string, this)
    end.
Proof.
  unfold checkTimestamp, parseTimestamp.
  destruct (reTokExt_match ts) as [[m1 m2]|]; [|reflexivity].
  cbn [pseq]. destruct (Z.geb_spec (base2int m1) (seq this)) as [Hge|Hlt].
  - rewrite Z.max_r by lia. reflexivity.
  - rewrite Z.max_l by lia. destruct this; reflexivity.
Qed.

(** X1.  After a clock has observed a timestamp whose decoded sequence is
    [k], its counter is the larger of what it was and [k+1]: greater than
    [k], so the timestamp it issues next carries a counter greater than
    [k]. *)
Theorem checkTimestamp_moves_past (this : t) (ts : string) (k : Z) :
  decoded_seq this ts = Some k ->
  exists this',
    checkTimestamp this ts = (Ok true, this')
    /\ seq this' = Z.max (seq this) (k + 1)
    /\ k < seq this'
    /\ exists m, k < m
                 /\ fst (issueTimestamp this')
                    = (int2base m 5 ++ "+" ++ id this)%string.
Proof.
  intros Hk. destruct (decoded_seq_inv _ _ _ Hk) as (m1 & m2 & Hm & Hd).
  rewrite checkTimestamp_cases, Hm, Hd.
  eexists. split; [reflexivity|]. cbn [seq id].
  split; [reflexivity|]. split; [lia|].
  exists (Z.max (seq this) (k + 1)). split; [lia | reflexivity].
Qed.

(** X2.  Observing the same string twice is the same as observing it once,
    whether it is accepted or not. *)
Theorem checkTimestamp_idempotent (this : t) (ts : string) :
  checkTimestamp (snd (checkTimestamp this ts)) ts = checkTimestamp this ts.
Proof.
  rewrite !checkTimestamp_cases.
  destruct (reTokExt_match ts) as [[m1 m2]|]; cbn [snd seq id]; [|reflexivity].
  do 2 f_equal. lia.
Qed.

(** X3.  The order in which two strings are observed does not matter for
    the clock that results. *)
Theorem checkTimestamp_commutes (this : t) (ts1 ts2 : string) :
  snd (checkTimestamp (snd (checkTimestamp this ts1)) ts2)
  = snd (checkTimestamp (snd (checkTimestamp this ts2)) ts1).
Proof.
  rewrite !checkTimestamp_cases.
  destruct (reTokExt_match ts1) as [[a1 a2]|];
    destruct (reTokExt_match ts2) as [[b1 b2]|]; cbn [snd seq id];
    try reflexivity.
  f_equal. lia.
Qed.

(** X4.  Where the codec decodes what it encodes for the counter of a
    clock, the timestamp this clock issues does not move it when it observes
    it itself, and moves every other clock past the counter encoded. *)
Theorem own_timestamp_observed (this other : t) :
  reTokExt_match (int2base (seq this) 5 ++ "+" ++ id this)%string
  = Some (int2base (seq this) 5, id this) ->
  base2int (int2base (seq this) 5) = seq this ->
  let (ts, this') := issueTimestamp this in
  checkTimestamp this' ts = (Ok true, this')
  /\ exists other',
       checkTimestamp other ts = (Ok true, other')
       /\ id other' = id other
       /\ seq this < seq other'.
Proof.
  intros Hm Hd. cbn [issueTimestamp].
  rewrite !checkTimestamp_cases, Hm, Hd. cbn [seq id]. split.
  - rewrite Z.max_l by lia. reflexivity.
  - eexists. split; [reflexivity|]. cbn [seq id]. split; [reflexivity | lia].
Qed.

(** X5.  Where the codec decodes what it encodes for the counters a clock
    goes through in [n] calls of [issueTimestamp], the [n] timestamps are
    pairwise different. *)
Theorem issued_timestamps_distinct (this : t) (n : nat) :
  (forall k, (k < n)%nat ->
     decoded_seq this
       (int2base (seq this + Z.of_nat k) 5 ++ "+" ++ id this)%string
     = Some (seq this + Z.of_nat k)) ->
  NoDup (fst (issue_many n this)).
Proof.
  intros Hdec. rewrite issue_many_spec. cbn [fst].
  apply (NoDup_map_inv (decoded_seq this)).
  rewrite map_map.
  rewrite (map_ext_in _ (fun k => Some (seq this + Z.of_nat k))).
  - apply Injective_map_NoDup; [|apply seq_NoDup].
    intros x y H. injection H. lia.
  - intros k Hk. apply in_seq in Hk. apply Hdec. lia.
Qed.

End ClockMerge.

Section ClockMergeExamples.
Import LamportClock.
Local Open Scope Z_scope.

Lemma checkTimestamp_moves_past_witness :
  exists this',
    checkTimestamp (codec := Base64.codec) (mk "gritzko" 5) "0000A+joe"
    = (Ok true, this')
    /\ seq this' = 11.
Proof.
  destruct (checkTimestamp_moves_past (codec := Base64.codec)
              (mk "gritzko" 5) "0000A+joe" 10 eq_refl)
    as (this' & H & Hs & _).
  exists this'. split; [exact H | exact Hs].
Defined.

Lemma own_timestamp_observed_witness :
  checkTimestamp (codec := Base64.codec) (mk "gritzko" 8) "00007+gritzko"
  = (Ok true, mk "gritzko" 8).
Proof.
  exact (proj1 (own_timestamp_observed (codec := Base64.codec)
                  (mk "gritzko" 7) (mk "joe" 0) eq_refl eq_refl)).
Defined.

Lemma issued_timestamps_distinct_witness :
  NoDup (fst (issue_many (codec := Base64.codec) 3 (mk "gritzko" 62))).
Proof.
  apply (issued_timestamps_distinct (codec := Base64.codec)).
  intros [|[|[|k]]] Hk; try reflexivity. lia.
Defined.

End ClockMergeExamples.

(** * Further properties of specifiers *)

Section SpecOperations.
Import Base64x64 Grammar.

(** ** What [blank], [fill] and [toString] compute *)

Lemma keeps_indexOf (except : option string) (i : index) :
  (indexOf (match except with
            | None => ""
            | Some e => if negb (truthy (JStr e)) then "" else e
            end) (Spec.quants i) =? -1)%Z
  = negb (keeps except i).
Proof.
  pose proof (blank_absent except (Spec.quants i)) as H.
  unfold keeps. destruct (existsb _ _) eqn:E; cbn [negb].
  - apply not_true_is_false. intros Ht. apply H in Ht. apply Ht.
    apply existsb_exists in E. destruct E as (c & Hc & Hq).
    apply Ascii.eqb_eq in Hq. now subst c.
  - apply H. intros Hin.
    assert (existsb (Ascii.eqb (Spec.quants i)) (chars except) = true).
    { apply existsb_exists. exists (Spec.quants i). split; [exact Hin|].
      apply Ascii.eqb_refl. }
    congruence.
Qed.

Lemma blank_spec (a : spec) (except : option string) (h : heap) :
  Spec.blank a except h
  = (Ok (mkSpec
           (Array4
              (if keeps except I0 then get (_toks a) I0 else Stamp.ZERO)
              (if keeps except I1 then get (_toks a) I1 else Stamp.ZERO)
              (if keeps except I2 then get (_toks a) I2 else Stamp.ZERO)
              (if keeps except I3 then get (_toks a) I3 else Stamp.ZERO))),
     h).
Proof.
  unfold Spec.blank. rewrite new_array_of.
  cbn [fold_left indices]. rewrite !keeps_indexOf.
  destruct a as [[a0 a1 a2 a3]].
  destruct (keeps except I0), (keeps except I1), (keeps except I2),
    (keeps except I3); reflexivity.
Qed.

Lemma fill_spec (a b : spec) (h : heap) :
  Spec.fill a (JSpec b) h
  = (Ok (mkSpec
           (Array4
              (if Stamp.isZero (get (_toks a) I0)
               then get (_toks b) I0 else get (_toks a) I0)
              (if Stamp.isZero (get (_toks a) I1)
               then get (_toks b) I1 else get (_toks a) I1)
              (if Stamp.isZero (get (_toks a) I2)
               then get (_toks b) I2 else get (_toks a) I2)
              (if Stamp.isZero (get (_toks a) I3)
               then get (_toks b) I3 else get (_toks a) I3))),
     h).
Proof.
  destruct a as [[a0 a1 a2 a3]], b as [[b0 b1 b2 b3]].
  cbv [Spec.fill for_each indices bind ret get set at0 at1 at2 at3 _toks
       Spec.array_of Spec.elem nth nat_of_index Spec.stamp_or_new].
  destruct (Stamp.isZero a0); cbv beta iota;
    destruct (Stamp.isZero a1); cbv beta iota;
    destruct (Stamp.isZero a2); cbv beta iota;
    destruct (Stamp.isZero a3); reflexivity.
Qed.

Lemma toString_render (a : spec) (d : option spec) :
  Spec.toString a d
  = render (emitted a (match d with
                       | None => Spec.NON_SPECIFIC_NOOP
                       | Some d => d
                       end)).
Proof.
  unfold Spec.toString, emitted, render, Spec.toString_step.
  cbn [fold_left indices at0 at1 at2 at3].
  set (d' := match d with None => Spec.NON_SPECIFIC_NOOP | Some d0 => d0 end).
  unfold Stamp.toString.
  destruct (Stamp.differs (get (_toks a) I0) (get (_toks d') I0));
    destruct (Stamp.differs (get (_toks a) I1) (get (_toks d') I1));
    destruct (Stamp.differs (get (_toks a) I2) (get (_toks d') I2));
    destruct (Stamp.differs (get (_toks a) I3) (get (_toks d') I3));
    cbn [orb andb is_empty append group Spec.quants];
    rewrite ?append_assoc, ?append_nil_r; cbn [append];
    rewrite ?append_assoc, ?append_nil_r; reflexivity.
Qed.


Lemma keeps_In (except : option string) (i : index) :
  keeps except i = true <-> In (Spec.quants i) (chars except).
Proof.
  unfold keeps. rewrite existsb_exists. split.
  - intros (c & Hc & Hq). apply Ascii.eqb_eq in Hq. now subst c.
  - intros H. exists (Spec.quants i). split; [exact H | apply Ascii.eqb_refl].
Qed.

Lemma isZero_ZERO : Stamp.isZero Stamp.ZERO = true.
Proof. reflexivity. Qed.

(** ** [fill] *)

(** X6.  [a.fill(b)] with a specifier [b] returns, without creating a
    token, the specifier that holds the token of [a] wherever it is not
    zero and the token of [b] wherever the token of [a] is zero. *)
Theorem fill_left_biased (a b : spec) (h : heap) :
  exists c,
    Spec.fill a (JSpec b) h = (Ok c, h)
    /\ (forall i, Stamp.isZero (get (_toks a) i) = false ->
                  get (_toks c) i = get (_toks a) i)
    /\ (forall i, Stamp.isZero (get (_toks a) i) = true ->
                  get (_toks c) i = get (_toks b) i).
Proof.
  rewrite fill_spec. eexists. split; [reflexivity|].
  split; intros [] Hi; cbn [get _toks at0 at1 at2 at3];
    cbn [get] in Hi; rewrite Hi; reflexivity.
Qed.

Lemma fill_left_biased_witness :
  exists c,
    Spec.fill (parsed_spec (Array4 (Some "T") None None (Some "n")) 0)
              (JSpec (parsed_spec (Array4 (Some "U") (Some "i") None None) 4))
              8 = (Ok c, 8)
    /\ Spec.Type_ c = mkStamp 1 "T"
    /\ Spec.Id c = mkStamp 6 "i".
Proof.
  destruct (fill_left_biased
              (parsed_spec (Array4 (Some "T") None None (Some "n")) 0)
              (parsed_spec (Array4 (Some "U") (Some "i") None None) 4) 8)
    as (c & Hc & Hkeep & Hfill).
  exists c. split; [exact Hc|]. split.
  - apply (Hkeep I0). reflexivity.
  - apply (Hfill I1). reflexivity.
Defined.

(** X7.  Filling twice from the same specifier is the same as filling
    once, and filling a specifier from itself returns it. *)
Theorem fill_idempotent (a b : spec) (h : heap) :
  (exists c,
      Spec.fill a (JSpec b) h = (Ok c, h)
      /\ Spec.fill c (JSpec b) h = (Ok c, h))
  /\ Spec.fill a (JSpec a) h = (Ok a, h).
Proof.
  split.
  - eexists. split; [apply fill_spec|]. rewrite fill_spec.
    destruct a as [[a0 a1 a2 a3]], b as [[b0 b1 b2 b3]].
    cbn [get _toks at0 at1 at2 at3].
    destruct (Stamp.isZero a0) eqn:E0, (Stamp.isZero a1) eqn:E1,
      (Stamp.isZero a2) eqn:E2, (Stamp.isZero a3) eqn:E3;
      rewrite ?E0, ?E1, ?E2, ?E3;
      repeat match goal with
             | |- context [if ?c then ?x else ?x] =>
                 replace (if c then x else x) with x by (destruct c; reflexivity)
             end;
      reflexivity.
  - rewrite fill_spec. destruct a as [[a0 a1 a2 a3]].
    cbn [get _toks at0 at1 at2 at3].
    destruct (Stamp.isZero a0), (Stamp.isZero a1), (Stamp.isZero a2),
      (Stamp.isZero a3); reflexivity.
Qed.

(** X8.  Blanking a specifier and filling the result from the specifier
    itself gives the specifier back, token for token. *)
Theorem blank_then_fill (a : spec) (except : option string) (h : heap) :
  exists b,
    Spec.blank a except h = (Ok b, h)
    /\ Spec.fill b (JSpec a) h = (Ok a, h).
Proof.
  eexists. split; [apply blank_spec|]. rewrite fill_spec.
  destruct a as [[a0 a1 a2 a3]]. cbn [get _toks at0 at1 at2 at3].
  destruct (keeps except I0), (keeps except I1), (keeps except I2),
    (keeps except I3);
    rewrite ?isZero_ZERO;
    destruct (Stamp.isZero a0), (Stamp.isZero a1), (Stamp.isZero a2),
      (Stamp.isZero a3); reflexivity.
Qed.

(** X9.  [fill] reads its argument only where a token is zero: on a
    specifier without a zero token it returns the specifier for whatever
    argument it gets, except [undefined] and [null], on which it throws
    whatever the specifier holds. *)
Theorem fill_reads_only_zero_positions (a : spec) (v : value) (h : heap) :
  (forall i, Stamp.isZero (get (_toks a) i) = false) ->
  match v with
  | JUndefined | JNull => Spec.fill a v h = (Throw "TypeError", h)
  | _ => Spec.fill a v h = (Ok a, h)
  end.
Proof.
  intros Hnz. destruct a as [[a0 a1 a2 a3]].
  pose proof (Hnz I0) as H0. pose proof (Hnz I1) as H1.
  pose proof (Hnz I2) as H2. pose proof (Hnz I3) as H3.
  cbn [get _toks at0 at1 at2 at3] in H0, H1, H2, H3.
  destruct v; try reflexivity;
    cbv [Spec.fill for_each indices bind ret get set at0 at1 at2 at3 _toks];
    rewrite H0; cbv beta iota; rewrite H1; cbv beta iota;
    rewrite H2; cbv beta iota; rewrite H3; reflexivity.
Qed.

Lemma fill_reads_only_zero_positions_witness :
  Spec.fill (parsed_spec (Array4 (Some "T") (Some "i") (Some "s") (Some "n")) 0)
            (JNum 7) 4
  = (Ok (parsed_spec (Array4 (Some "T") (Some "i") (Some "s") (Some "n")) 0), 4).
Proof.
  apply (fill_reads_only_zero_positions
           (parsed_spec (Array4 (Some "T") (Some "i") (Some "s") (Some "n")) 0)
           (JNum 7) 4).
  intros []; reflexivity.
Defined.


(** ** [has] *)

Lemma quants_indexOf_quant (i : index) :
  Spec.quants_indexOf indices (JStr (String (Spec.quants i) "")) = Some i.
Proof. destruct i; reflexivity. Qed.

Lemma quants_indexOf_none (v : value) :
  (forall i, v <> JStr (String (Spec.quants i) "")) ->
  Spec.quants_indexOf indices v = None.
Proof.
  intros Hv. destruct v; try reflexivity.
  cbn [Spec.quants_indexOf indices].
  destruct (String.eqb_spec s (String (Spec.quants I0) "")) as [->|_];
    [now destruct (Hv I0)|].
  destruct (String.eqb_spec s (String (Spec.quants I1) "")) as [->|_];
    [now destruct (Hv I1)|].
  destruct (String.eqb_spec s (String (Spec.quants I2) "")) as [->|_];
    [now destruct (Hv I2)|].
  destruct (String.eqb_spec s (String (Spec.quants I3) "")) as [->|_];
    [now destruct (Hv I3)|].
  reflexivity.
Qed.

(** X10.  [has] answers for one of the four quants whether the token at its
    position is not zero, and throws "invalid quant" for every other
    argument: another string, several quants at once, or no string. *)
Theorem has_selects_by_quant (a : spec) :
  (forall i,
      Spec.has a (JStr (String (Spec.quants i) ""))
      = Ok (negb (Stamp.isZero (get (_toks a) i))))
  /\ (forall v,
         (forall i, v <> JStr (String (Spec.quants i) "")) ->
         Spec.has a v = Throw "invalid quant").
Proof.
  split.
  - intros i. unfold Spec.has. now rewrite quants_indexOf_quant.
  - intros v Hv. unfold Spec.has. now rewrite quants_indexOf_none.
Qed.

Lemma has_selects_by_quant_witness :
  Spec.has Spec.NON_SPECIFIC_NOOP (JStr "/#") = Throw "invalid quant".
Proof.
  apply (proj2 (has_selects_by_quant Spec.NON_SPECIFIC_NOOP)).
  intros [] H; discriminate H.
Defined.

(** X11.  After [blank(except)] a position "has" a token exactly when its
    quant is in [except] and the specifier had one there. *)
Theorem has_after_blank (a : spec) (except : option string) (h : heap) :
  exists b,
    Spec.blank a except h = (Ok b, h)
    /\ (forall i, In (Spec.quants i) (chars except) ->
                  Spec.has b (JStr (String (Spec.quants i) ""))
                  = Spec.has a (JStr (String (Spec.quants i) "")))
    /\ (forall i, ~ In (Spec.quants i) (chars except) ->
                  Spec.has b (JStr (String (Spec.quants i) "")) = Ok false).
Proof.
  eexists. split; [apply blank_spec|].
  split; intros i Hi; unfold Spec.has; rewrite quants_indexOf_quant.
  - apply keeps_In in Hi.
    destruct i; cbn [get _toks at0 at1 at2 at3]; rewrite Hi; reflexivity.
  - assert (Hk : keeps except i = false).
    { destruct (keeps except i) eqn:E; [|reflexivity].
      now apply keeps_In in E. }
    destruct i; cbn [get _toks at0 at1 at2 at3]; rewrite Hk; reflexivity.
Qed.

Lemma has_after_blank_witness :
  exists b,
    Spec.blank (parsed_spec (Array4 (Some "T") (Some "i") (Some "s") (Some "n")) 0)
               (Some "/#") 4 = (Ok b, 4)
    /\ Spec.has b (JStr "/") = Ok true
    /\ Spec.has b (JStr "!") = Ok false.
Proof.
  destruct (has_after_blank
              (parsed_spec (Array4 (Some "T") (Some "i") (Some "s") (Some "n")) 0)
              (Some "/#") 4) as (b & Hb & Hin & Hout).
  exists b. split; [exact Hb|]. split.
  - etransitivity; [apply (Hin I0); simpl; tauto | reflexivity].
  - apply (Hout I2). simpl. intros [H|[H|[]]]; discriminate.
Defined.

(** X12.  After [a.fill(b)] a position "has" a token exactly when [a] or
    [b] has one there. *)
Theorem has_after_fill (a b : spec) (h : heap) :
  exists c,
    Spec.fill a (JSpec b) h = (Ok c, h)
    /\ forall i,
         Spec.has c (JStr (String (Spec.quants i) ""))
         = Ok (negb (Stamp.isZero (get (_toks a) i))
               || negb (Stamp.isZero (get (_toks b) i))).
Proof.
  eexists. split; [apply fill_spec|].
  intros i. unfold Spec.has. rewrite quants_indexOf_quant.
  destruct i; cbn [get _toks at0 at1 at2 at3];
    match goal with
    | |- context [if Stamp.isZero ?x then _ else _] =>
        destruct (Stamp.isZero x) eqn:E; cbn [negb orb]; rewrite ?E;
        reflexivity
    end.
Qed.

(** ** [blank] *)

(** X13.  Two calls of [blank] commute, and keep a token exactly where both
    arguments hold the quant of its position. *)
Theorem blank_twice (a : spec) (x y : option string) (h : heap) :
  exists bx b_y c,
    Spec.blank a x h = (Ok bx, h)
    /\ Spec.blank bx y h = (Ok c, h)
    /\ Spec.blank a y h = (Ok b_y, h)
    /\ Spec.blank b_y x h = (Ok c, h)
    /\ (forall i, In (Spec.quants i) (chars x) ->
                  In (Spec.quants i) (chars y) ->
                  get (_toks c) i = get (_toks a) i)
    /\ (forall i, ~ (In (Spec.quants i) (chars x)
                     /\ In (Spec.quants i) (chars y)) ->
                  get (_toks c) i = Stamp.ZERO).
Proof.
  eexists _, _, _. split; [apply blank_spec|].
  split; [apply blank_spec|]. split; [apply blank_spec|].
  rewrite blank_spec. cbn [get _toks at0 at1 at2 at3].
  split; [|split].
  - destruct (keeps x I0), (keeps x I1), (keeps x I2), (keeps x I3),
      (keeps y I0), (keeps y I1), (keeps y I2), (keeps y I3); reflexivity.
  - intros i Hx Hy. apply keeps_In in Hx. apply keeps_In in Hy.
    destruct i; cbn [get _toks at0 at1 at2 at3]; rewrite Hx, Hy; reflexivity.
  - intros i Hn.
    assert (Hk : keeps x i && keeps y i = false).
    { destruct (keeps x i) eqn:Ex, (keeps y i) eqn:Ey; try reflexivity.
      exfalso. apply Hn. split; now apply keeps_In. }
    destruct i; cbn [get _toks at0 at1 at2 at3];
      match goal with
      | |- (if keeps y ?j then if keeps x ?j then _ else _ else _) = _ =>
          destruct (keeps x j), (keeps y j); try reflexivity; discriminate Hk
      end.
Qed.

Lemma blank_twice_witness :
  exists c,
    (exists bx,
        Spec.blank (parsed_spec (Array4 (Some "T") (Some "i") (Some "s") (Some "n")) 0)
                   (Some "/#!") 4 = (Ok bx, 4)
        /\ Spec.blank bx (Some "#!.") 4 = (Ok c, 4))
    /\ Spec.Id c = mkStamp 2 "i"
    /\ Spec.Type_ c = Stamp.ZERO.
Proof.
  destruct (blank_twice
              (parsed_spec (Array4 (Some "T") (Some "i") (Some "s") (Some "n")) 0)
              (Some "/#!") (Some "#!.") 4)
    as (bx & b_y & c & H1 & H2 & _ & _ & Hin & Hout).
  exists c. split; [exists bx; split; assumption|]. split.
  - apply (Hin I1); simpl; tauto.
  - apply (Hout I0). simpl. intros [_ [H|[H|[H|[]]]]]; discriminate.
Defined.

End SpecOperations.

(** * Serialization and parsing together *)

Section SpecSerialization.
Import Base64x64 Grammar.

Lemma emitted_valid (a d : spec) :
  (forall i, Tok (text (get (_toks a) i))) -> valid (emitted a d).
Proof.
  intros Ha i t. unfold emitted.
  destruct (Stamp.differs (get (_toks a) I0) (get (_toks d) I0));
    destruct (Stamp.differs (get (_toks a) I1) (get (_toks d) I1));
    destruct (Stamp.differs (get (_toks a) I2) (get (_toks d) I2));
    destruct (Stamp.differs (get (_toks a) I3) (get (_toks d) I3));
    destruct i; cbn [get at0 at1 at2 at3]; intros E;
    inversion E; subst;
    first [exact (Ha I0) | exact (Ha I1) | exact (Ha I2) | exact (Ha I3)].
Qed.

Lemma render_emitted_nonempty (a d : spec) : render (emitted a d) <> "".
Proof.
  unfold emitted, render.
  destruct (Stamp.differs (get (_toks a) I0) (get (_toks d) I0));
    destruct (Stamp.differs (get (_toks a) I1) (get (_toks d) I1));
    destruct (Stamp.differs (get (_toks a) I2) (get (_toks d) I2));
    destruct (Stamp.differs (get (_toks a) I3) (get (_toks d) I3));
    cbn [at0 at1 at2 at3 group append]; discriminate.
Qed.

(** Each capture of [emitted a d] is the text of the token of [a], or is
    absent where [a] and [d] hold the same object. *)
Lemma emitted_cases (a d : spec) (i : index) :
  get (emitted a d) i = Some (text (get (_toks a) i))
  \/ (get (emitted a d) i = None
      /\ addr (get (_toks a) i) = addr (get (_toks d) i)).
Proof.
  assert (Hd : forall x y, Stamp.differs x y = false -> addr x = addr y).
  { intros x y H. unfold Stamp.differs in H. apply negb_false_iff in H.
    now apply Nat.eqb_eq in H. }
  unfold emitted.
  destruct (Stamp.differs (get (_toks a) I0) (get (_toks d) I0)) eqn:E0;
    destruct (Stamp.differs (get (_toks a) I1) (get (_toks d) I1)) eqn:E1;
    destruct (Stamp.differs (get (_toks a) I2) (get (_toks d) I2)) eqn:E2;
    destruct (Stamp.differs (get (_toks a) I3) (get (_toks d) I3)) eqn:E3;
    destruct i; cbn [get at0 at1 at2 at3]; auto.
Qed.

Lemma parsed_render (g : array4 (option string)) (h : heap) :
  valid g -> render g <> "" ->
  exists sp,
    Spec.new (JStr (render g)) h = (Ok sp, 4 + h)
    /\ forall i, text (get (_toks sp) i) = token_text (get g i).
Proof.
  intros Hg Hne. exists (parsed_spec g h).
  split; [exact (new_matched g h Hg Hne)|].
  destruct g as [g0 g1 g2 g3]. intros []; reflexivity.
Qed.

Lemma equal_texts (a b : spec) :
  (forall i, text (get (_toks a) i) = text (get (_toks b) i)) ->
  Spec.equal a b = true.
Proof.
  intros H. unfold Spec.equal, Stamp.eq, indices. cbn [forallb].
  rewrite (H I0), (H I1), (H I2), (H I3), !String.eqb_refl. reflexivity.
Qed.

(** X14.  Whatever the baseline, the text [toString] returns for a
    specifier whose tokens match the token grammar is not empty and is
    accepted by [Spec.is]. *)
Theorem toString_is_accepted (a : spec) (d : option spec) :
  (forall i, Tok (text (get (_toks a) i))) ->
  Spec.toString a d <> "" /\ Spec.is_ (Spec.toString a d) = true.
Proof.
  intros Ha. rewrite toString_render. split.
  - apply render_emitted_nonempty.
  - unfold Spec.is_.
    now rewrite (reSpec_exec_complete _ (emitted_valid a _ Ha)).
Qed.

(** X15.  Serialized against the default baseline and parsed again, a
    specifier whose tokens match the token grammar, and of which only the
    zero sentinel has the sentinel's identity, comes back structurally
    equal. *)
Theorem serialize_then_parse (a : spec) (h : heap) :
  spec_ok h a ->
  exists sp h',
    Spec.new (JStr (Spec.toString a None)) h = (Ok sp, h')
    /\ Spec.equal sp a = true.
Proof.
  intros Ha. rewrite toString_render.
  assert (Htok : forall i, Tok (text (get (_toks a) i))) by (intros i; apply Ha).
  destruct (parsed_render _ h
              (emitted_valid a Spec.NON_SPECIFIC_NOOP Htok)
              (render_emitted_nonempty a Spec.NON_SPECIFIC_NOOP))
    as (sp & Hsp & Htext).
  exists sp, (4 + h). split; [exact Hsp|].
  apply equal_texts. intros i. rewrite Htext.
  destruct (emitted_cases a Spec.NON_SPECIFIC_NOOP i) as [E|[E Haddr]];
    rewrite E; [reflexivity|].
  destruct (Ha i) as (_ & _ & Hz).
  rewrite Hz; [reflexivity|].
  rewrite Haddr. destruct i; reflexivity.
Qed.

(** X16.  Where the type, the id and the stamp of a specifier are the
    objects the baseline holds, [toString] returns the name alone, also
    when the name is the object of the baseline too: a specifier serialized
    against itself gives its name. *)
Theorem toString_name_alone (a d : spec) :
  Spec.Type_ a = Spec.Type_ d ->
  Spec.Id a = Spec.Id d ->
  Spec.Stamp_ a = Spec.Stamp_ d ->
  Spec.toString a (Some d) = String "." (Spec.name a)
  /\ Spec.toString a (Some a) = String "." (Spec.name a).
Proof.
  assert (Hsame : forall x, Stamp.differs x x = false).
  { intros x. unfold Stamp.differs. now rewrite Nat.eqb_refl. }
  unfold Spec.Type_, Spec.Id, Spec.Stamp_. intros H0 H1 H2.
  rewrite !toString_render. unfold emitted, render.
  rewrite <- H0, <- H1, <- H2, !Hsame.
  cbn [at0 at1 at2 at3 group append].
  split; reflexivity.
Qed.

(** X17.  Delta encoding: a specifier serialized against a baseline,
    parsed, and filled from the baseline comes back structurally equal,
    provided it holds no zero token where the baseline holds a token that
    is not zero (the text of such a position parses as a zero and is
    filled). *)
Theorem delta_round_trip (a d : spec) (h : heap) :
  (forall i, Tok (text (get (_toks a) i))) ->
  (forall i, addr (get (_toks a) i) = addr (get (_toks d) i) ->
             get (_toks a) i = get (_toks d) i) ->
  (forall i, Stamp.isZero (get (_toks a) i) = true ->
             Stamp.isZero (get (_toks d) i) = true) ->
  exists sp h' c,
    Spec.new (JStr (Spec.toString a (Some d))) h = (Ok sp, h')
    /\ Spec.fill sp (JSpec d) h' = (Ok c, h')
    /\ Spec.equal c a = true.
Proof.
  intros Htok Hcoh Hzero. rewrite toString_render.
  destruct (parsed_render _ h (emitted_valid a d Htok)
              (render_emitted_nonempty a d)) as (sp & Hsp & Htext).
  exists sp, (4 + h). eexists. split; [exact Hsp|].
  split; [apply fill_spec|].
  apply equal_texts.
  assert (Hpos : forall i,
             text (if Stamp.isZero (get (_toks sp) i)
                   then get (_toks d) i else get (_toks sp) i)
             = text (get (_toks a) i)).
  { intros i. unfold Stamp.isZero. rewrite (Htext i).
    destruct (emitted_cases a d i) as [E|[E Haddr]]; rewrite E;
      cbn [token_text].
    - destruct (String.eqb_spec (text (get (_toks a) i)) "0") as [Hz|Hnz].
      + assert (Hd : Stamp.isZero (get (_toks d) i) = true).
        { apply Hzero. unfold Stamp.isZero. now rewrite Hz, String.eqb_refl. }
        unfold Stamp.isZero in Hd. apply String.eqb_eq in Hd. congruence.
      + rewrite (Htext i), E. reflexivity.
    - cbn [String.eqb Ascii.eqb Bool.eqb]. now rewrite (Hcoh i Haddr). }
  intros []; cbn [get _toks at0 at1 at2 at3];
    [apply (Hpos I0) | apply (Hpos I1) | apply (Hpos I2) | apply (Hpos I3)].
Qed.


(** The condition of the delta round trip is needed: a zero that was parsed
    from the text ["#0"] is lost against a baseline that has an id. *)
Lemma delta_loses_explicit_zero :
  exists a d sp c,
    Spec.new (JStr "/T#0") 0 = (Ok a, 4)
    /\ Spec.new (JStr "/T#i") 4 = (Ok d, 8)
    /\ Spec.new (JStr (Spec.toString a (Some d))) 8 = (Ok sp, 12)
    /\ Spec.fill sp (JSpec d) 12 = (Ok c, 12)
    /\ Spec.id a = "0" /\ Spec.id c = "i".
Proof. eexists _, _, _, _. repeat split. Qed.

Lemma token_text_Tok (g : array4 (option string)) (i : index) :
  valid g -> Tok (token_text (get g i)).
Proof.
  intros Hg. destruct (get g i) as [t|] eqn:E; [exact (Hg i t E)|].
  exact Tok_zero.
Qed.

Lemma parsed_spec_ok (g : array4 (option string)) (h : heap) :
  valid g -> spec_ok (4 + h) (parsed_spec g h).
Proof.
  intros Hg i. pose proof (token_text_Tok g i Hg) as Ht.
  destruct g as [g0 g1 g2 g3].
  destruct i; (split; [exact Ht | split; [cbn; lia | discriminate]]).
Qed.

Lemma valid_full_example :
  valid (Array4 (Some "TodoItem") (Some "7AM0f+gritzko")
                (Some "7AMTc+gritzko") None).
Proof.
  intros [] t E; inversion E; subst.
  - apply Tok_bare. split; [discriminate | reflexivity].
  - apply (Tok_pair "7AM0f" "gritzko"); split; (discriminate || reflexivity).
  - apply (Tok_pair "7AMTc" "gritzko"); split; (discriminate || reflexivity).
Qed.

Lemma toString_is_accepted_witness :
  Spec.is_ (Spec.toString
              (parsed_spec (Array4 (Some "TodoItem") (Some "7AM0f+gritzko")
                                   (Some "7AMTc+gritzko") None) 0)
              (Some Spec.NON_SPECIFIC_NOOP)) = true.
Proof.
  apply (toString_is_accepted
           (parsed_spec (Array4 (Some "TodoItem") (Some "7AM0f+gritzko")
                                (Some "7AMTc+gritzko") None) 0)
           (Some Spec.NON_SPECIFIC_NOOP)).
  intros i. apply (parsed_spec_ok _ 0 valid_full_example i).
Defined.

Lemma serialize_then_parse_witness :
  exists sp h',
    Spec.new (JStr (Spec.toString
                      (parsed_spec (Array4 (Some "TodoItem") (Some "7AM0f+gritzko")
                                           (Some "7AMTc+gritzko") None) 0)
                      None)) 4 = (Ok sp, h')
    /\ Spec.equal sp
         (parsed_spec (Array4 (Some "TodoItem") (Some "7AM0f+gritzko")
                              (Some "7AMTc+gritzko") None) 0) = true.
Proof.
  apply (serialize_then_parse
           (parsed_spec (Array4 (Some "TodoItem") (Some "7AM0f+gritzko")
                                (Some "7AMTc+gritzko") None) 0) 4).
  exact (parsed_spec_ok _ 0 valid_full_example).
Defined.

Lemma toString_name_alone_witness :
  Spec.toString
    (mkSpec (Array4 (mkStamp 1 "T") (mkStamp 2 "i") (mkStamp 3 "s")
                    (mkStamp 9 "done")))
    (Some (mkSpec (Array4 (mkStamp 1 "T") (mkStamp 2 "i") (mkStamp 3 "s")
                          (mkStamp 4 "n"))))
  = ".done".
Proof.
  apply (proj1 (toString_name_alone
                  (mkSpec (Array4 (mkStamp 1 "T") (mkStamp 2 "i")
                                  (mkStamp 3 "s") (mkStamp 9 "done")))
                  (mkSpec (Array4 (mkStamp 1 "T") (mkStamp 2 "i")
                                  (mkStamp 3 "s") (mkStamp 4 "n")))
                  eq_refl eq_refl eq_refl)).
Defined.

Lemma delta_round_trip_witness :
  exists sp h' c,
    Spec.new (JStr (Spec.toString
                      (mkSpec (Array4 (mkStamp 1 "T") (mkStamp 2 "i")
                                      (mkStamp 5 "s2") (mkStamp 4 "n")))
                      (Some (mkSpec (Array4 (mkStamp 1 "T") (mkStamp 2 "i")
                                            (mkStamp 3 "s") (mkStamp 4 "n"))))))
             5 = (Ok sp, h')
    /\ Spec.fill sp
         (JSpec (mkSpec (Array4 (mkStamp 1 "T") (mkStamp 2 "i")
                                (mkStamp 3 "s") (mkStamp 4 "n")))) h'
       = (Ok c, h')
    /\ Spec.equal c (mkSpec (Array4 (mkStamp 1 "T") (mkStamp 2 "i")
                                    (mkStamp 5 "s2") (mkStamp 4 "n"))) = true.
Proof.
  apply (delta_round_trip
           (mkSpec (Array4 (mkStamp 1 "T") (mkStamp 2 "i")
                           (mkStamp 5 "s2") (mkStamp 4 "n")))
           (mkSpec (Array4 (mkStamp 1 "T") (mkStamp 2 "i")
                           (mkStamp 3 "s") (mkStamp 4 "n"))) 5).
  - intros []; apply Tok_bare; split; (discriminate || reflexivity).
  - intros [] H; (reflexivity || discriminate H).
  - intros [] H; discriminate H.
Defined.

End SpecSerialization.

(** * The constructor and the derived specifiers *)

Section SpecConstruction.
Import Base64x64 Grammar.

Lemma new_string_cases (s : string) (h : heap) :
  match Spec.reSpec_exec s with
  | Some _ => exists sp h', Spec.new (JStr s) h = (Ok sp, h')
  | None => Spec.new (JStr s) h = (Throw "invalid spec", h)
  end.
Proof.
  destruct s as [|c s].
  - cbn. eexists _, _. reflexivity.
  - destruct (Spec.reSpec_exec (String c s)) as [m|] eqn:Em.
    + destruct (reSpec_exec_sound _ _ Em) as (g & Hg & _ & Hr).
      rewrite Hr. eexists _, _. apply (new_matched g h Hg).
      rewrite <- Hr. discriminate.
    + apply new_unmatched; [discriminate | exact Em].
Qed.

(** X18.  [Spec.is] and the constructor agree on every string: the
    constructor returns a specifier exactly for the strings [Spec.is]
    accepts, and throws "invalid spec" for all others. *)
Theorem is_iff_new (s : string) (h : heap) :
  (Spec.is_ s = true <-> exists sp h', Spec.new (JStr s) h = (Ok sp, h'))
  /\ (Spec.is_ s = false <-> Spec.new (JStr s) h = (Throw "invalid spec", h)).
Proof.
  pose proof (new_string_cases s h) as H. unfold Spec.is_.
  destruct (Spec.reSpec_exec s) as [m|].
  - destruct H as (sp & h' & H). split; split; intros H'.
    + now exists sp, h'.
    + reflexivity.
    + discriminate.
    + rewrite H in H'. discriminate.
  - split; split; intros H'.
    + discriminate.
    + destruct H' as (sp & h' & H'). rewrite H in H'. discriminate.
    + exact H.
    + reflexivity.
Qed.

Lemma stamp_new_text (t : string) (h : heap) :
  Tok t -> Stamp.new (JStr t) h = (Ok (mkStamp (S h) t), S h).
Proof.
  intros Ht. apply (stamp_new_capture (Some t) h).
  intros t' E. now inversion E; subst.
Qed.

(** X19.  The four string accessors rebuild a specifier: for a specifier
    whose tokens match the token grammar, [new Spec([a.type, a.id, a.stamp,
    a.name])] creates four tokens and is structurally equal to it. *)
Theorem new_from_accessors (a : spec) (h : heap) :
  (forall i, Tok (text (get (_toks a) i))) ->
  exists sp,
    Spec.new (JArr [JStr (Spec.type a); JStr (Spec.id a);
                    JStr (Spec.stamp_ a); JStr (Spec.name a)]) h
    = (Ok sp, 4 + h)
    /\ Spec.equal sp a = true.
Proof.
  intros Ha. unfold Spec.type, Spec.id, Spec.stamp_, Spec.name, Stamp.string.
  exists (mkSpec (Array4 (mkStamp (1 + h) (text (get (_toks a) I0)))
                         (mkStamp (2 + h) (text (get (_toks a) I1)))
                         (mkStamp (3 + h) (text (get (_toks a) I2)))
                         (mkStamp (4 + h) (text (get (_toks a) I3))))).
  split.
  - cbv [Spec.new truthy negb List.length Nat.eqb for_each indices bind ret
         nth nat_of_index Spec.coerce Spec.zero_toks set at0 at1 at2 at3].
    rewrite (stamp_new_text _ h (Ha I0)).
    rewrite (stamp_new_text _ _ (Ha I1)).
    rewrite (stamp_new_text _ _ (Ha I2)).
    rewrite (stamp_new_text _ _ (Ha I3)).
    reflexivity.
  - apply equal_texts. intros []; reflexivity.
Qed.

(** X20.  [stampop] is the serialization of the stamp and the name alone:
    for a specifier whose stamp and name match the token grammar it parses
    to a specifier structurally equal to [a.blank('!.')]. *)
Theorem stampop_parses_to_blank (a : spec) (h : heap) :
  Tok (text (Spec.Stamp_ a)) ->
  Tok (text (Spec.Name a)) ->
  exists sp h' b,
    Spec.new (JStr (Spec.stampop a)) h = (Ok sp, h')
    /\ Spec.blank a (Some "!.") h' = (Ok b, h')
    /\ Spec.equal sp b = true.
Proof.
  intros Hs Hn.
  set (g := Array4 None None (Some (text (Spec.Stamp_ a)))
                   (Some (text (Spec.Name a)))).
  assert (Hg : valid g).
  { intros [] t E; inversion E; subst; assumption. }
  assert (Hr : Spec.stampop a = render g).
  { unfold Spec.stampop, Spec.stampop_of, render, g, Stamp.toString.
    cbn [at0 at1 at2 at3 group append Spec.quants].
    rewrite !append_assoc. reflexivity. }
  destruct (parsed_render g h Hg) as (sp & Hsp & Htext);
    [rewrite <- Hr; discriminate|].
  exists sp, (4 + h). eexists. rewrite Hr.
  split; [exact Hsp|]. split; [apply blank_spec|].
  apply equal_texts.
  intros []; rewrite Htext; reflexivity.
Qed.


(** ** Arrays as arguments *)

Lemma new_array4 (v0 v1 v2 v3 : value) (h : heap) :
  Spec.new (JArr [v0; v1; v2; v3]) h
  = match Spec.coerce v0 h with
    | (Throw e, h0) => (Throw e, h0)
    | (Ok t0, h0) =>
        match Spec.coerce v1 h0 with
        | (Throw e, h1) => (Throw e, h1)
        | (Ok t1, h1) =>
            match Spec.coerce v2 h1 with
            | (Throw e, h2) => (Throw e, h2)
            | (Ok t2, h2) =>
                match Spec.coerce v3 h2 with
                | (Throw e, h3) => (Throw e, h3)
                | (Ok t3, h3) => (Ok (mkSpec (Array4 t0 t1 t2 t3)), h3)
                end
            end
        end
    end.
Proof.
  cbv [Spec.new truthy negb List.length Nat.eqb for_each indices bind ret
       nth nat_of_index Spec.zero_toks set at0 at1 at2 at3].
  destruct (Spec.coerce v0 h) as [[t0|e0] h0]; [|reflexivity].
  destruct (Spec.coerce v1 h0) as [[t1|e1] h1]; [|reflexivity].
  destruct (Spec.coerce v2 h1) as [[t2|e2] h2]; [|reflexivity].
  destruct (Spec.coerce v3 h2) as [[t3|e3] h3]; reflexivity.
Qed.

Lemma is_tok_Tok (s : string) : Stamp.is_tok s = true -> Tok s.
Proof.
  unfold Stamp.is_tok.
  destruct (Stamp.scanTok s) as [[t r]|] eqn:E; [|discriminate].
  destruct r; [|discriminate]. intros _.
  destruct (scanTok_sound _ _ _ E) as (Hs & Ht).
  rewrite append_nil_r in Hs. now subst t.
Qed.

(** What [tok && tok.constructor===Stamp ? tok : new Stamp(tok)] can do:
    hand the object on, create one, or throw in [new Stamp]. *)
Lemma coerce_cases (v : value) (h : heap) :
  (exists t, v = JStamp t /\ Spec.coerce v h = (Ok t, h))
  \/ (exists txt, Tok txt /\ Spec.coerce v h = (Ok (mkStamp (S h) txt), S h))
  \/ Spec.coerce v h = (Throw "malformed token", h).
Proof.
  destruct v; cbn [Spec.coerce];
    try (right; left; exists "0"; split; [exact Tok_zero | reflexivity]);
    try (right; right; reflexivity).
  - destruct b.
    + right; right; reflexivity.
    + right; left. exists "0". split; [exact Tok_zero | reflexivity].
  - destruct (Z.eqb_spec n 0) as [->|Hn].
    + right; left. exists "0". split; [exact Tok_zero | reflexivity].
    + right; right. unfold Stamp.new. cbn [truthy].
      apply Z.eqb_neq in Hn. now rewrite Hn.
  - destruct s as [|c s].
    + right; left. exists "0". split; [exact Tok_zero | reflexivity].
    + unfold Stamp.new. cbn [truthy String.eqb negb].
      destruct (Stamp.is_tok (String c s)) eqn:E.
      * right; left. exists (String c s). split; [now apply is_tok_Tok | reflexivity].
      * right; right. reflexivity.
  - left. exists t. split; reflexivity.
Qed.

(** X21.  The constructor throws "unrecognized parameter" exactly for the
    arguments that are truthy and neither a string, a specifier nor an array
    of four elements: [true], a number other than zero, a token object, an
    array of another length. *)
Theorem new_unrecognized (v : value) (h : heap) :
  Spec.new v h = (Throw "unrecognized parameter", h)
  <-> v = JBool true
      \/ (exists n, v = JNum n /\ n <> 0%Z)
      \/ (exists t, v = JStamp t)
      \/ (exists l, v = JArr l /\ List.length l <> 4).
Proof.
  split.
  - intros H. destruct v; try (cbn in H; discriminate H).
    + destruct b; [now left | discriminate H].
    + right; left. exists n. split; [reflexivity|]. intros ->. discriminate H.
    + exfalso. pose proof (new_string_cases s h) as Hs.
      destruct (Spec.reSpec_exec s).
      * destruct Hs as (sp & h' & Hs). rewrite Hs in H. discriminate H.
      * rewrite Hs in H. discriminate H.
    + right; right; right. exists l. split; [reflexivity|]. intros Hl.
      destruct l as [|v0 [|v1 [|v2 [|v3 [|v4 l]]]]]; try discriminate Hl.
      rewrite new_array4 in H.
      destruct (coerce_cases v0 h) as [(t0 & _ & E0)|[(x0 & _ & E0)|E0]];
        rewrite E0 in H; try discriminate H;
        match type of H with
        | context [Spec.coerce v1 ?h1] =>
            destruct (coerce_cases v1 h1)
              as [(t1 & _ & E1)|[(x1 & _ & E1)|E1]];
            rewrite E1 in H; try discriminate H
        end;
        match type of H with
        | context [Spec.coerce v2 ?h2] =>
            destruct (coerce_cases v2 h2)
              as [(t2 & _ & E2)|[(x2 & _ & E2)|E2]];
            rewrite E2 in H; try discriminate H
        end;
        match type of H with
        | context [Spec.coerce v3 ?h3] =>
            destruct (coerce_cases v3 h3)
              as [(t3 & _ & E3)|[(x3 & _ & E3)|E3]];
            rewrite E3 in H; discriminate H
        end.
    + right; right; left. now exists t.
  - intros [->|[(n & -> & Hn)|[(t & ->)|(l & -> & Hl)]]].
    + reflexivity.
    + unfold Spec.new. cbn [truthy]. apply Z.eqb_neq in Hn. now rewrite Hn.
    + reflexivity.
    + unfold Spec.new. cbn [truthy negb].
      apply Nat.eqb_neq in Hl. now rewrite Hl.
Qed.

Lemma new_unrecognized_witness :
  Spec.new (JArr [JStr "Object"; JStr "1CQKn+0r1g1n"; JStr "on"]) 0
  = (Throw "unrecognized parameter", 0).
Proof.
  apply (proj2 (new_unrecognized
                  (JArr [JStr "Object"; JStr "1CQKn+0r1g1n"; JStr "on"]) 0)).
  right; right; right. eexists. split; [reflexivity | discriminate].
Defined.


(** ** The tokens a specifier holds *)

Lemma stamp_ok_mono (h h' : heap) (t : stamp) :
  h <= h' -> stamp_ok h t -> stamp_ok h' t.
Proof. intros Hh (Ht & Ha & Hz). repeat split; [exact Ht | lia | exact Hz]. Qed.

Lemma stamp_ok_ZERO (h : heap) : stamp_ok h Stamp.ZERO.
Proof. repeat split; [exact Tok_zero | cbn; lia]. Qed.

Lemma stamp_ok_new (h : heap) (txt : string) :
  Tok txt -> stamp_ok (S h) (mkStamp (S h) txt).
Proof. intros Ht. repeat split; [exact Ht | cbn; lia | discriminate]. Qed.

Lemma coerce_ok (l : list value) (v : value) (h h' : heap) (t : stamp) :
  (forall t, In (JStamp t) l -> stamp_ok h t) ->
  In v l ->
  Spec.coerce v h = (Ok t, h') ->
  stamp_ok h' t /\ h <= h'.
Proof.
  intros Hl Hv Hc.
  destruct (coerce_cases v h) as [(t0 & -> & E)|[(x & Hx & E)|E]];
    rewrite E in Hc; inversion Hc; subst.
  - split; [now apply Hl | lia].
  - split; [now apply stamp_ok_new | lia].
Qed.

Lemma coerce_origin (l : list value) (v : value) (h h' : heap) (t : stamp) :
  In v l ->
  Spec.coerce v h = (Ok t, h') ->
  (In (JStamp t) l /\ h' = h) \/ (addr t = S h /\ h' = S h).
Proof.
  intros Hv Hc.
  destruct (coerce_cases v h) as [(t0 & -> & E)|[(x & Hx & E)|E]];
    rewrite E in Hc; inversion Hc; subst.
  - left. now split.
  - right. now split.
Qed.

(** X22.  The constructor keeps the tokens in order: of an argument whose
    token objects match the token grammar and were created earlier, it
    makes a specifier of which every token is the zero sentinel, a token
    object of the argument, or an object created by this call; none of them
    is mistaken for the sentinel, each matches the token grammar, and the
    allocation counter does not decrease. *)
Theorem new_keeps_tokens_ok (v : value) (h h' : heap) (sp : spec) :
  value_ok h v ->
  Spec.new v h = (Ok sp, h') ->
  spec_ok h' sp
  /\ h <= h'
  /\ forall i,
       get (_toks sp) i = Stamp.ZERO
       \/ token_of v (get (_toks sp) i)
       \/ h < addr (get (_toks sp) i) <= h'.
Proof.
  intros Hv Hnew.
  destruct (truthy v) eqn:Etruthy.
  2:{ unfold Spec.new in Hnew. rewrite Etruthy in Hnew. inversion Hnew; subst.
      split; [|split; [lia|]].
      - intros []; apply stamp_ok_ZERO.
      - intros []; now left. }
  destruct v; try discriminate Etruthy;
    try (unfold Spec.new in Hnew; rewrite Etruthy in Hnew; discriminate Hnew).
  - (* a string *)
    destruct s as [|c s]; [discriminate Etruthy|].
    destruct (Spec.reSpec_exec (String c s)) as [m|] eqn:Em.
    + destruct (reSpec_exec_sound _ _ Em) as (g & Hg & _ & Hr).
      rewrite Hr, (new_matched g h Hg) in Hnew by (rewrite <- Hr; discriminate).
      inversion Hnew; subst. split; [now apply parsed_spec_ok|].
      split; [lia|].
      intros []; right; right; cbn; lia.
    + rewrite new_unmatched in Hnew by (discriminate || exact Em).
      discriminate Hnew.
  - (* an array *)
    cbn [value_ok] in Hv.
    destruct l as [|v0 [|v1 [|v2 [|v3 [|v4 l]]]]]; try discriminate Hnew.
    rewrite new_array4 in Hnew.
    destruct (Spec.coerce v0 h) as [[t0|e0] h0] eqn:E0; [|discriminate Hnew].
    destruct (Spec.coerce v1 h0) as [[t1|e1] h1] eqn:E1; [|discriminate Hnew].
    destruct (Spec.coerce v2 h1) as [[t2|e2] h2] eqn:E2; [|discriminate Hnew].
    destruct (Spec.coerce v3 h2) as [[t3|e3] h3] eqn:E3; [|discriminate Hnew].
    inversion Hnew; subst. clear Hnew.
    set (l := [v0; v1; v2; v3]) in *.
    destruct (coerce_ok l v0 h h0 t0 Hv ltac:(simpl; tauto) E0) as [K0 L0].
    assert (Hv0 : forall t, In (JStamp t) l -> stamp_ok h0 t).
    { intros t Ht. apply (stamp_ok_mono h); [exact L0 | now apply Hv]. }
    destruct (coerce_ok l v1 h0 h1 t1 Hv0 ltac:(simpl; tauto) E1) as [K1 L1].
    assert (Hv1 : forall t, In (JStamp t) l -> stamp_ok h1 t).
    { intros t Ht. apply (stamp_ok_mono h0); [exact L1 | now apply Hv0]. }
    destruct (coerce_ok l v2 h1 h2 t2 Hv1 ltac:(simpl; tauto) E2) as [K2 L2].
    assert (Hv2 : forall t, In (JStamp t) l -> stamp_ok h2 t).
    { intros t Ht. apply (stamp_ok_mono h1); [exact L2 | now apply Hv1]. }
    destruct (coerce_ok l v3 h2 h' t3 Hv2 ltac:(simpl; tauto) E3) as [K3 L3].
    split; [|split; [lia|]].
    + intros []; cbn [get _toks at0 at1 at2 at3].
      * apply (stamp_ok_mono h0); [lia | exact K0].
      * apply (stamp_ok_mono h1); [lia | exact K1].
      * apply (stamp_ok_mono h2); [lia | exact K2].
      * exact K3.
    + pose proof (coerce_origin l v0 h h0 t0 ltac:(simpl; tauto) E0) as O0.
      pose proof (coerce_origin l v1 h0 h1 t1 ltac:(simpl; tauto) E1) as O1.
      pose proof (coerce_origin l v2 h1 h2 t2 ltac:(simpl; tauto) E2) as O2.
      pose proof (coerce_origin l v3 h2 h' t3 ltac:(simpl; tauto) E3) as O3.
      intros []; cbn [get _toks at0 at1 at2 at3 token_of]; right.
      * destruct O0 as [[Hin _]|[Ha Hh]]; [now left | right; lia].
      * destruct O1 as [[Hin _]|[Ha Hh]]; [now left | right; lia].
      * destruct O2 as [[Hin _]|[Ha Hh]]; [now left | right; lia].
      * destruct O3 as [[Hin _]|[Ha Hh]]; [now left | right; lia].
  - (* a specifier *)
    cbn in Hnew. inversion Hnew; subst. destruct sp0 as [toks].
    split; [exact Hv|]. split; [lia|].
    intros i. right; left. now exists i.
Qed.

Lemma new_keeps_tokens_ok_witness :
  spec_ok 2 (mkSpec (Array4 (mkStamp 1 "T") Stamp.ZERO
                            (mkStamp 2 "7AMTc+gritzko") Stamp.ZERO))
  /\ 1 <= 2
  /\ forall i,
       get (Array4 (mkStamp 1 "T") Stamp.ZERO
                   (mkStamp 2 "7AMTc+gritzko") Stamp.ZERO) i = Stamp.ZERO
       \/ In (JStamp (get (Array4 (mkStamp 1 "T") Stamp.ZERO
                                  (mkStamp 2 "7AMTc+gritzko") Stamp.ZERO) i))
             [JStamp (mkStamp 1 "T"); JStamp Stamp.ZERO;
              JStr "7AMTc+gritzko"; JStamp Stamp.ZERO]
       \/ 1 < addr (get (Array4 (mkStamp 1 "T") Stamp.ZERO
                                (mkStamp 2 "7AMTc+gritzko") Stamp.ZERO) i)
          <= 2.
Proof.
  apply (new_keeps_tokens_ok
           (JArr [JStamp (mkStamp 1 "T"); JStamp Stamp.ZERO;
                  JStr "7AMTc+gritzko"; JStamp Stamp.ZERO]) 1 2
           (mkSpec (Array4 (mkStamp 1 "T") Stamp.ZERO
                           (mkStamp 2 "7AMTc+gritzko") Stamp.ZERO))).
  - intros t [H|[H|[H|[H|[]]]]]; inversion H; subst.
    + repeat split; [|cbn; lia|discriminate].
      apply Tok_bare. split; [discriminate | reflexivity].
    + apply stamp_ok_ZERO.
    + apply stamp_ok_ZERO.
  - reflexivity.
Defined.

(** Handed [undefined] or [null], [isSameObject] throws before it
    compares anything. *)
Lemma isSameObject_undefined (a : spec) (h : heap) :
  Spec.isSameObject a JUndefined h = (Throw "TypeError", h)
  /\ Spec.isSameObject a JNull h = (Throw "TypeError", h).
Proof. split; reflexivity. Qed.

(** ** [typeid], [isSameObject], [restamp] and [rename] *)

Lemma typeid_spec (a : spec) (h : heap) :
  Spec.typeid a h
  = (Ok (Spec.toString
           (mkSpec (Array4 (Spec.Type_ a) (Spec.Id a) Stamp.ZERO Stamp.ZERO))
           None), h).
Proof.
  unfold Spec.typeid, bind. rewrite blank_spec. reflexivity.
Qed.

(** X23.  [typeid] returns a text without creating a token, and the text
    depends on the type and id tokens alone: two specifiers that hold the
    same type and id objects have the same [typeid], whatever their stamps
    and names. *)
Theorem typeid_of_type_and_id (a b : spec) (h : heap) :
  Spec.Type_ a = Spec.Type_ b ->
  Spec.Id a = Spec.Id b ->
  exists s, Spec.typeid a h = (Ok s, h) /\ Spec.typeid b h = (Ok s, h).
Proof.
  intros Ht Hi. rewrite !typeid_spec, Ht, Hi. eexists. split; reflexivity.
Qed.

Lemma typeid_of_type_and_id_witness :
  exists s,
    Spec.typeid (parsed_spec (Array4 (Some "T") (Some "i") (Some "s") None) 0) 4
    = (Ok s, 4)
    /\ Spec.typeid (mkSpec (Array4 (mkStamp 1 "T") (mkStamp 2 "i")
                                   (mkStamp 9 "s2") (mkStamp 8 "n"))) 4
       = (Ok s, 4).
Proof.
  apply (typeid_of_type_and_id
           (parsed_spec (Array4 (Some "T") (Some "i") (Some "s") None) 0)
           (mkSpec (Array4 (mkStamp 1 "T") (mkStamp 2 "i")
                           (mkStamp 9 "s2") (mkStamp 8 "n"))) 4);
    reflexivity.
Defined.

Lemma isSameObject_spec (a b : spec) (h : heap) :
  Spec.isSameObject a (JSpec b) h
  = (Ok (Stamp.eq (Spec.Type_ a) (Spec.Type_ b)
         && Stamp.eq (Spec.Id a) (Spec.Id b)), h).
Proof. reflexivity. Qed.

Lemma isSameObject_true (a b : spec) (h : heap) :
  Spec.isSameObject a (JSpec b) h = (Ok true, h)
  <-> Spec.type a = Spec.type b /\ Spec.id a = Spec.id b.
Proof.
  rewrite isSameObject_spec.
  unfold Stamp.eq, Spec.type, Spec.id, Spec.Type_, Spec.Id, Stamp.string.
  split.
  - intros H. inversion H as [H'].
    apply andb_true_iff in H'. destruct H' as [H0 H1].
    now apply String.eqb_eq in H0, H1.
  - intros [-> ->]. now rewrite !String.eqb_refl.
Qed.

(** X24.  On specifiers [isSameObject] is an equivalence: it holds exactly
    when the type texts and the id texts are equal, so it is reflexive,
    symmetric and transitive, and it does not look at stamp or name. *)
Theorem isSameObject_equivalence (a b c : spec) (h : heap) :
  (Spec.isSameObject a (JSpec b) h = (Ok true, h)
   <-> Spec.type a = Spec.type b /\ Spec.id a = Spec.id b)
  /\ Spec.isSameObject a (JSpec a) h = (Ok true, h)
  /\ Spec.isSameObject a (JSpec b) h = Spec.isSameObject b (JSpec a) h
  /\ (Spec.isSameObject a (JSpec b) h = (Ok true, h) ->
      Spec.isSameObject b (JSpec c) h = (Ok true, h) ->
      Spec.isSameObject a (JSpec c) h = (Ok true, h)).
Proof.
  split; [apply isSameObject_true|]. split; [|split].
  - now apply isSameObject_true.
  - rewrite !isSameObject_spec. unfold Stamp.eq.
    now rewrite (String.eqb_sym (text (Spec.Type_ a))),
      (String.eqb_sym (text (Spec.Id a))).
  - rewrite !isSameObject_true. intros [-> ->] [-> ->]. now split.
Qed.

Lemma isSameObject_equivalence_witness :
  Spec.isSameObject (parsed_spec (Array4 (Some "T") (Some "i") (Some "s") None) 0)
                    (JSpec (parsed_spec (Array4 (Some "T") (Some "i") None
                                                (Some "n")) 4)) 8
  = (Ok true, 8).
Proof.
  apply (proj1 (isSameObject_equivalence
                  (parsed_spec (Array4 (Some "T") (Some "i") (Some "s") None) 0)
                  (parsed_spec (Array4 (Some "T") (Some "i") None (Some "n")) 4)
                  Spec.NON_SPECIFIC_NOOP 8)).
  split; reflexivity.
Defined.

(** X25.  Given a string, [isSameObject] parses it first: a string the
    grammar does not accept makes it throw "invalid spec", and for an
    accepted one the answer is the one for the specifier parsed. *)
Theorem isSameObject_of_string (a : spec) (s : string) (h : heap) :
  (Spec.is_ s = false ->
   Spec.isSameObject a (JStr s) h = (Throw "invalid spec", h))
  /\ (Spec.is_ s = true ->
      exists sp h',
        Spec.new (JStr s) h = (Ok sp, h')
        /\ Spec.isSameObject a (JStr s) h = Spec.isSameObject a (JSpec sp) h').
Proof.
  pose proof (new_string_cases s h) as H. unfold Spec.is_.
  destruct (Spec.reSpec_exec s) as [m|].
  - destruct H as (sp & h' & H). split; [discriminate|]. intros _.
    exists sp, h'. split; [exact H|].
    unfold Spec.isSameObject, bind. rewrite H. reflexivity.
  - split; [|discriminate]. intros _.
    unfold Spec.isSameObject, bind. rewrite H. reflexivity.
Qed.

Lemma isSameObject_of_string_witness :
  Spec.isSameObject Spec.NON_SPECIFIC_NOOP (JStr "X#Y") 0
  = (Throw "invalid spec", 0).
Proof.
  apply (proj1 (isSameObject_of_string Spec.NON_SPECIFIC_NOOP "X#Y" 0)).
  reflexivity.
Defined.

Lemma restamp_result (a : spec) (stamp origin : value) (h h' : heap)
    (b : spec) :
  Spec.restamp a stamp origin h = (Ok b, h') ->
  exists t, b = mkSpec (Array4 (Spec.Type_ a) (Spec.Id a) t (Spec.Name a)).
Proof.
  unfold Spec.restamp, bind.
  destruct (Spec.with_origin stamp origin h) as [[st|e] h0]; [|discriminate].
  rewrite new_array4. cbn [Spec.coerce ret].
  destruct (Spec.coerce st h0) as [[t|e] h1]; [|discriminate].
  intros H. inversion H; subst. now exists t.
Qed.

Lemma rename_result (a : spec) (stamp origin : value) (h h' : heap)
    (b : spec) :
  Spec.rename a stamp origin h = (Ok b, h') ->
  exists t, b = mkSpec (Array4 (Spec.Type_ a) (Spec.Id a) (Spec.Stamp_ a) t).
Proof.
  unfold Spec.rename, bind.
  destruct (Spec.with_origin stamp origin h) as [[st|e] h0]; [|discriminate].
  rewrite new_array4. cbn [Spec.coerce ret].
  destruct (Spec.coerce st h0) as [[t|e] h1]; [|discriminate].
  intros H. inversion H; subst. now exists t.
Qed.

(** X26.  A specifier [restamp] returns holds the type, id and name objects
    of the original, and one [rename] returns its type, id and stamp
    objects; either has the [typeid] of the original and is the same object
    for [isSameObject]. *)
Theorem restamp_rename_keep_object (a b : spec) (stamp origin : value)
    (h h' : heap) :
  (Spec.restamp a stamp origin h = (Ok b, h') ->
   Spec.Type_ b = Spec.Type_ a /\ Spec.Id b = Spec.Id a
   /\ Spec.Name b = Spec.Name a
   /\ Spec.typeid b h' = Spec.typeid a h'
   /\ Spec.isSameObject a (JSpec b) h' = (Ok true, h'))
  /\ (Spec.rename a stamp origin h = (Ok b, h') ->
      Spec.Type_ b = Spec.Type_ a /\ Spec.Id b = Spec.Id a
      /\ Spec.Stamp_ b = Spec.Stamp_ a
      /\ Spec.typeid b h' = Spec.typeid a h'
      /\ Spec.isSameObject a (JSpec b) h' = (Ok true, h')).
Proof.
  split; intros H;
    [apply restamp_result in H | apply rename_result in H];
    destruct H as (t & ->);
    (split; [reflexivity|]); (split; [reflexivity|]);
    (split; [reflexivity|]);
    (split; [rewrite !typeid_spec; reflexivity|]);
    apply isSameObject_true; split; reflexivity.
Qed.

Lemma restamp_rename_keep_object_witness :
  Spec.isSameObject
    (parsed_spec (Array4 (Some "T") (Some "i") (Some "s") (Some "n")) 0)
    (JSpec (mkSpec (Array4 (mkStamp 1 "T") (mkStamp 2 "i")
                           (mkStamp 5 "7AMTc+gritzko") (mkStamp 4 "n")))) 5
  = (Ok true, 5).
Proof.
  apply (proj1 (restamp_rename_keep_object
                  (parsed_spec (Array4 (Some "T") (Some "i") (Some "s")
                                       (Some "n")) 0)
                  (mkSpec (Array4 (mkStamp 1 "T") (mkStamp 2 "i")
                                  (mkStamp 5 "7AMTc+gritzko") (mkStamp 4 "n")))
                  (JStr "7AMTc") (JStr "gritzko") 4 5)).
  reflexivity.
Defined.

(** X27.  A stamp given as text becomes one new token, and the result
    serialized against the original is the change alone: ['!'] and the text
    after [restamp], ['.'] and the text after [rename]. *)
Theorem restamp_rename_delta (a : spec) (s : string) (h : heap) :
  spec_ok h a ->
  Tok s ->
  (exists b,
      Spec.restamp a (JStr s) JUndefined h = (Ok b, S h)
      /\ Spec.toString b (Some a) = String "!" s)
  /\ (exists b,
         Spec.rename a (JStr s) JUndefined h = (Ok b, S h)
         /\ Spec.toString b (Some a) = String "." s).
Proof.
  intros Ha Hs.
  assert (Hsame : forall x, Stamp.differs x x = false).
  { intros x. unfold Stamp.differs. now rewrite Nat.eqb_refl. }
  assert (Hnew : forall i, Stamp.differs (mkStamp (S h) s) (get (_toks a) i) = true).
  { intros i. destruct (Ha i) as (_ & Hle & _). unfold Stamp.differs.
    cbn [addr]. apply negb_true_iff, Nat.eqb_neq. lia. }
  pose proof (Hnew I2) as N2. pose proof (Hnew I3) as N3.
  cbn [get] in N2, N3.
  split; eexists; (split;
    [ unfold Spec.restamp, Spec.rename, Spec.with_origin, bind, ret;
      cbn [truthy]; rewrite new_array4; cbn [Spec.coerce ret];
      rewrite (stamp_new_text s h Hs); reflexivity
    | rewrite toString_render; unfold emitted, render, Spec.Type_, Spec.Id,
        Spec.Stamp_, Spec.Name;
      cbn [get _toks at0 at1 at2 at3];
      rewrite ?Hsame, ?N2, ?N3;
      cbn [group append text Spec.quants];
      rewrite ?append_nil_r; reflexivity ]).
Qed.

Lemma restamp_rename_delta_witness :
  exists b,
    Spec.restamp
      (parsed_spec (Array4 (Some "TodoItem") (Some "7AM0f+gritzko")
                           (Some "7AMTc+gritzko") None) 0)
      (JStr "7AMTd") JUndefined 4 = (Ok b, 5)
    /\ Spec.toString
         b (Some (parsed_spec (Array4 (Some "TodoItem") (Some "7AM0f+gritzko")
                                      (Some "7AMTc+gritzko") None) 0))
       = "!7AMTd".
Proof.
  apply (proj1 (restamp_rename_delta
                  (parsed_spec (Array4 (Some "TodoItem") (Some "7AM0f+gritzko")
                                       (Some "7AMTc+gritzko") None) 0)
                  "7AMTd" 4 (parsed_spec_ok _ 0 valid_full_example)
                  ltac:(apply Tok_bare; split; [discriminate | reflexivity]))).
Defined.


Lemma fill_empty_array4 (v0 v1 v2 v3 : value) (h : heap) :
  Spec.fill Spec.NON_SPECIFIC_NOOP (JArr [v0; v1; v2; v3]) h
  = match Spec.stamp_or_new v0 h with
    | (Throw e, h0) => (Throw e, h0)
    | (Ok t0, h0) =>
        match Spec.stamp_or_new v1 h0 with
        | (Throw e, h1) => (Throw e, h1)
        | (Ok t1, h1) =>
            match Spec.stamp_or_new v2 h1 with
            | (Throw e, h2) => (Throw e, h2)
            | (Ok t2, h2) =>
                match Spec.stamp_or_new v3 h2 with
                | (Throw e, h3) => (Throw e, h3)
                | (Ok t3, h3) => (Ok (mkSpec (Array4 t0 t1 t2 t3)), h3)
                end
            end
        end
    end.
Proof.
  cbv [Spec.fill Spec.NON_SPECIFIC_NOOP Spec.zero_toks _toks for_each indices
       bind ret get set at0 at1 at2 at3 Spec.elem nth nat_of_index].
  rewrite isZero_ZERO.
  destruct (Spec.stamp_or_new v0 h) as [[t0|e0] h0]; [|reflexivity].
  cbv beta iota. rewrite isZero_ZERO.
  destruct (Spec.stamp_or_new v1 h0) as [[t1|e1] h1]; [|reflexivity].
  cbv beta iota. rewrite isZero_ZERO.
  destruct (Spec.stamp_or_new v2 h1) as [[t2|e2] h2]; [|reflexivity].
  cbv beta iota. rewrite isZero_ZERO.
  destruct (Spec.stamp_or_new v3 h2) as [[t3|e3] h3]; [|reflexivity].
  apply new_array_of.
Qed.

Lemma stamp_or_new_coerce (v : value) :
  v <> JUndefined -> v <> JNull -> Spec.stamp_or_new v = Spec.coerce v.
Proof. destruct v; intros H1 H2; try reflexivity; congruence. Qed.

(** X28.  Filling the empty specifier from an array of four elements, none
    of them [undefined] or [null], does what the constructor does with the
    array; where the first element is [undefined] or [null], [fill] throws
    and the constructor puts a zero token. *)
Theorem fill_empty_from_array (v0 v1 v2 v3 : value) (h : heap) :
  ((forall v, In v [v0; v1; v2; v3] -> v <> JUndefined /\ v <> JNull) ->
   Spec.fill Spec.NON_SPECIFIC_NOOP (JArr [v0; v1; v2; v3]) h
   = Spec.new (JArr [v0; v1; v2; v3]) h)
  /\ (v0 = JUndefined \/ v0 = JNull ->
      Spec.fill Spec.NON_SPECIFIC_NOOP (JArr [v0; v1; v2; v3]) h
      = (Throw "TypeError", h)
      /\ Spec.coerce v0 h = (Ok (mkStamp (S h) "0"), S h)).
Proof.
  split.
  - intros Hl. rewrite fill_empty_array4, new_array4.
    rewrite (stamp_or_new_coerce v0), (stamp_or_new_coerce v1),
      (stamp_or_new_coerce v2), (stamp_or_new_coerce v3);
      try (apply Hl; simpl; tauto).
    reflexivity.
  - intros [->| ->]; rewrite fill_empty_array4; split; reflexivity.
Qed.

Lemma fill_empty_from_array_witness :
  Spec.fill Spec.NON_SPECIFIC_NOOP
            (JArr [JStr "Object"; JStr "1CQKn+0r1g1n"; JStr "0"; JStr "on"]) 0
  = Spec.new (JArr [JStr "Object"; JStr "1CQKn+0r1g1n"; JStr "0"; JStr "on"]) 0.
Proof.
  apply (proj1 (fill_empty_from_array
                  (JStr "Object") (JStr "1CQKn+0r1g1n") (JStr "0") (JStr "on")
                  0)).
  intros v [H|[H|[H|[H|[]]]]]; subst v; split; discriminate.
Defined.

Lemma is_iff_new_witness :
  exists sp h', Spec.new (JStr "/TodoItem#7AM0f+gritzko") 0 = (Ok sp, h').
Proof.
  apply (proj1 (proj1 (is_iff_new "/TodoItem#7AM0f+gritzko" 0))).
  reflexivity.
Defined.

Lemma new_from_accessors_witness :
  exists sp,
    Spec.new (JArr [JStr "TodoItem"; JStr "7AM0f+gritzko";
                    JStr "7AMTc+gritzko"; JStr "0"]) 4 = (Ok sp, 8)
    /\ Spec.equal sp
         (parsed_spec (Array4 (Some "TodoItem") (Some "7AM0f+gritzko")
                              (Some "7AMTc+gritzko") None) 0) = true.
Proof.
  apply (new_from_accessors
           (parsed_spec (Array4 (Some "TodoItem") (Some "7AM0f+gritzko")
                                (Some "7AMTc+gritzko") None) 0) 4).
  intros i. apply (parsed_spec_ok _ 0 valid_full_example i).
Defined.

Lemma stampop_parses_to_blank_witness :
  exists sp h' b,
    Spec.new (JStr "!7AMTc+gritzko.0") 4 = (Ok sp, h')
    /\ Spec.blank (parsed_spec (Array4 (Some "TodoItem") (Some "7AM0f+gritzko")
                                       (Some "7AMTc+gritzko") None) 0)
                  (Some "!.") h' = (Ok b, h')
    /\ Spec.equal sp b = true.
Proof.
  apply (stampop_parses_to_blank
           (parsed_spec (Array4 (Some "TodoItem") (Some "7AM0f+gritzko")
                                (Some "7AMTc+gritzko") None) 0) 4).
  - apply (parsed_spec_ok _ 0 valid_full_example I2).
  - apply (parsed_spec_ok _ 0 valid_full_example I3).
Defined.

End SpecConstruction.
